(** * GameEngine: the client-side game-state engine

    A shallow embedding of the [GameEngine] class of the module
    [@/lib/gameEngine] (the second part of [src/pages/Index.tsx]) and of
    the records it works on.

    Numbers are integers ([Z]): the engine adds, subtracts and compares
    whole numbers and multiplies the level by 100, which JavaScript's
    numbers do exactly below 2^53.  Strings are sequences of code units
    below 256 ([string]).  A TypeScript optional field is an [option].
    In the first part every method is a function from the engine's state,
    taken as a value, to a result and a new state; the second part puts
    objects and arrays on a heap, where [{ ...obj }] copies references. *)

From stdpp Require Import base numbers option list strings pretty gmap.
From Stdlib Require Import Ascii.

Local Open Scope Z_scope.

(** ** Data model *)

Inductive ItemType := weapon | armor | potion | key | treasure.

Global Instance ItemType_eq_dec : EqDecision ItemType.
Proof. solve_decision. Defined.

(** [effect?: { health?: number; damage?: number; defense?: number }] *)
Module Effect.
Record t := mk {
  health : option Z;
  damage : option Z;
  defense : option Z
}.
End Effect.

Module Item.
Record t := mk {
  id : string;
  name : string;
  type : ItemType;
  value : Z;
  description : string;
  effect : option Effect.t
}.
End Item.

Module Quest.
Record t := mk {
  id : string;
  title : string;
  description : string;
  region : string;
  completed : bool;
  crystal : option string
}.
End Quest.

Inductive StoryPhase := awakening | exploration | finale.

Global Instance StoryPhase_eq_dec : EqDecision StoryPhase.
Proof. solve_decision. Defined.

Record GameState := mkGameState {
  health : Z;
  maxHealth : Z;
  inventory : list Item.t;
  gold : Z;
  currentLocation : string;
  experience : Z;
  level : Z;
  currentAct : Z;
  currentRegion : string;
  activeQuests : list Quest.t;
  completedQuests : list string;
  crystalsRestored : list string;
  storyPhase : StoryPhase
}.

Definition INITIAL_STATE : GameState := {|
  health := 100;
  maxHealth := 100;
  inventory := [
    Item.mk "starter-sword" "Rusty Sword" weapon 10
            "A worn but reliable blade"
            (Some (Effect.mk None (Some 15) None));
    Item.mk "health-potion" "Health Potion" potion 25
            "Restores 30 HP"
            (Some (Effect.mk (Some 30) None None))
  ];
  gold := 50;
  currentLocation := "Eldergrove Village";
  experience := 0;
  level := 1;
  currentAct := 1;
  currentRegion := "Eldergrove";
  activeQuests := [
    Quest.mk "awakening" "The Awakening"
             "Meet the Elder and learn about the corrupted crystals"
             "Eldergrove" false None
  ];
  completedQuests := [];
  crystalsRestored := [];
  storyPhase := awakening
|}.

(** ** Assignments to one field of [this.state] *)

Definition set_health (v : Z) (s : GameState) : GameState :=
  mkGameState v (maxHealth s) (inventory s) (gold s) (currentLocation s)
    (experience s) (level s) (currentAct s) (currentRegion s)
    (activeQuests s) (completedQuests s) (crystalsRestored s) (storyPhase s).

Definition set_maxHealth (v : Z) (s : GameState) : GameState :=
  mkGameState (health s) v (inventory s) (gold s) (currentLocation s)
    (experience s) (level s) (currentAct s) (currentRegion s)
    (activeQuests s) (completedQuests s) (crystalsRestored s) (storyPhase s).

Definition set_inventory (v : list Item.t) (s : GameState) : GameState :=
  mkGameState (health s) (maxHealth s) v (gold s) (currentLocation s)
    (experience s) (level s) (currentAct s) (currentRegion s)
    (activeQuests s) (completedQuests s) (crystalsRestored s) (storyPhase s).

Definition set_gold (v : Z) (s : GameState) : GameState :=
  mkGameState (health s) (maxHealth s) (inventory s) v (currentLocation s)
    (experience s) (level s) (currentAct s) (currentRegion s)
    (activeQuests s) (completedQuests s) (crystalsRestored s) (storyPhase s).

Definition set_experience (v : Z) (s : GameState) : GameState :=
  mkGameState (health s) (maxHealth s) (inventory s) (gold s)
    (currentLocation s) v (level s) (currentAct s) (currentRegion s)
    (activeQuests s) (completedQuests s) (crystalsRestored s) (storyPhase s).

Definition set_level (v : Z) (s : GameState) : GameState :=
  mkGameState (health s) (maxHealth s) (inventory s) (gold s)
    (currentLocation s) (experience s) v (currentAct s) (currentRegion s)
    (activeQuests s) (completedQuests s) (crystalsRestored s) (storyPhase s).

Definition set_currentAct (v : Z) (s : GameState) : GameState :=
  mkGameState (health s) (maxHealth s) (inventory s) (gold s)
    (currentLocation s) (experience s) (level s) v (currentRegion s)
    (activeQuests s) (completedQuests s) (crystalsRestored s) (storyPhase s).

Definition set_activeQuests (v : list Quest.t) (s : GameState) : GameState :=
  mkGameState (health s) (maxHealth s) (inventory s) (gold s)
    (currentLocation s) (experience s) (level s) (currentAct s)
    (currentRegion s) v (completedQuests s) (crystalsRestored s)
    (storyPhase s).

Definition set_completedQuests (v : list string) (s : GameState) : GameState :=
  mkGameState (health s) (maxHealth s) (inventory s) (gold s)
    (currentLocation s) (experience s) (level s) (currentAct s)
    (currentRegion s) (activeQuests s) v (crystalsRestored s) (storyPhase s).

Definition set_crystalsRestored (v : list string) (s : GameState) : GameState :=
  mkGameState (health s) (maxHealth s) (inventory s) (gold s)
    (currentLocation s) (experience s) (level s) (currentAct s)
    (currentRegion s) (activeQuests s) (completedQuests s) v (storyPhase s).

Definition set_storyPhase (v : StoryPhase) (s : GameState) : GameState :=
  mkGameState (health s) (maxHealth s) (inventory s) (gold s)
    (currentLocation s) (experience s) (level s) (currentAct s)
    (currentRegion s) (activeQuests s) (completedQuests s)
    (crystalsRestored s) v.

(** ** The engine's methods: a state monad over [this.state] *)

Definition Eng (A : Type) : Type := GameState → A * GameState.

Global Instance Eng_ret : MRet Eng := λ A a s, (a, s).
Global Instance Eng_bind : MBind Eng :=
  λ A B k m s, let '(a, s') := m s in k a s'.
Definition get : Eng GameState := λ s, (s, s).
Definition modify (f : GameState → GameState) : Eng unit := λ s, (tt, f s).
Definition ret {A} (a : A) : Eng A := mret a.

(** The state after a method call, and the value it returns. *)
Definition exec {A} (m : Eng A) (s : GameState) : GameState := (m s).2.
Definition eval {A} (m : Eng A) (s : GameState) : A := (m s).1.

(** *** Combat mechanics *)

Definition takeDamage (amount : Z) : Eng (Z * bool) :=
  s ← get;
  modify (set_health (Z.max 0 (health s - amount)));;
  s ← get;
  ret (health s, bool_decide (health s = 0)).

Definition heal (amount : Z) : Eng Z :=
  s ← get;
  let oldHealth := health s in
  modify (set_health (Z.min (maxHealth s) (health s + amount)));;
  s ← get;
  ret (health s - oldHealth).

(** *** Inventory management *)

Definition has_id (itemId : string) (i : Item.t) : Prop := Item.id i = itemId.

Global Instance has_id_dec itemId i : Decision (has_id itemId i).
Proof. unfold has_id. apply _. Defined.

Definition addItem (item : Item.t) : Eng unit :=
  modify (λ s, set_inventory (inventory s ++ [item]) s).

(** [findIndex] then [splice(index, 1)]: the first item with that id. *)
Definition removeItem (itemId : string) : Eng (option Item.t) :=
  s ← get;
  match list_find (has_id itemId) (inventory s) with
  | None => ret None
  | Some (index, item) =>
      modify (set_inventory (delete index (inventory s)));;
      ret (Some item)
  end.

(** The value of [useItem]: [{ success; message; effect?: { healthRestored } }]. *)
Record UseResult := mkUseResult {
  success : bool;
  message : string;
  healthRestored : option Z
}.

(** [item.effect?.health] *)
Definition effect_health (item : Item.t) : option Z :=
  Item.effect item ≫= Effect.health.

(** Truthiness of an optional number: present and not zero. *)
Definition truthy (o : option Z) : bool :=
  match o with
  | Some h => negb (h =? 0)
  | None => false
  end.

Definition useItem (itemId : string) : Eng UseResult :=
  s ← get;
  match list_find (has_id itemId) (inventory s) with
  | None => ret (mkUseResult false "Item not found" None)
  | Some (_, item) =>
      if bool_decide (Item.type item = potion) && truthy (effect_health item)
      then
        healed ← heal (default 0 (effect_health item));
        removeItem itemId;;
        ret (mkUseResult true
               ("Used " +:+ Item.name item +:+ ". Restored "
                  +:+ pretty healed +:+ " HP!")
               (Some healed))
      else ret (mkUseResult false "Cannot use this item now" None)
  end.

(** *** Economy *)

Definition addGold (amount : Z) : Eng unit :=
  modify (λ s, set_gold (gold s + amount) s).

Definition spendGold (amount : Z) : Eng bool :=
  s ← get;
  if gold s >=? amount
  then modify (set_gold (gold s - amount));; ret true
  else ret false.

(** *** Progress *)

(** [{ leveledUp: boolean; newLevel?: number }] *)
Definition gainExperience (amount : Z) : Eng (bool * option Z) :=
  modify (λ s, set_experience (experience s + amount) s);;
  s ← get;
  let expNeeded := level s * 100 in
  if experience s >=? expNeeded
  then
    modify (λ s, set_level (level s + 1) s);;
    modify (λ s, set_experience (experience s - expNeeded) s);;
    modify (λ s, set_maxHealth (maxHealth s + 20) s);;
    modify (λ s, set_health (maxHealth s) s);;
    s ← get;
    ret (true, Some (level s))
  else ret (false, None).

(** *** Quest management *)

Definition quest_has_id (questId : string) (q : Quest.t) : Prop :=
  Quest.id q = questId.

Global Instance quest_has_id_dec questId q : Decision (quest_has_id questId q).
Proof. unfold quest_has_id. apply _. Defined.

(** [quest.completed = true] on the quest object held in [activeQuests]. *)
Definition mark_completed (q : Quest.t) : Quest.t :=
  Quest.mk (Quest.id q) (Quest.title q) (Quest.description q)
           (Quest.region q) true (Quest.crystal q).

Definition completeQuest (questId : string) : Eng unit :=
  s ← get;
  match list_find (quest_has_id questId) (activeQuests s) with
  | Some (index, quest) =>
      modify (λ s, set_activeQuests
                     (<[index := mark_completed quest]> (activeQuests s)) s);;
      modify (λ s, set_completedQuests (completedQuests s ++ [questId]) s);;
      modify (λ s, set_activeQuests
                     (filter (λ q, Quest.id q ≠ questId) (activeQuests s)) s)
  | None => ret tt
  end.

Definition addQuest (quest : Quest.t) : Eng unit :=
  s ← get;
  match list_find (quest_has_id (Quest.id quest)) (activeQuests s) with
  | None => modify (λ s, set_activeQuests (activeQuests s ++ [quest]) s)
  | Some _ => ret tt
  end.

Definition restoreCrystal (crystalType : string) : Eng unit :=
  s ← get;
  if negb (bool_decide (crystalType ∈ crystalsRestored s))
  then
    modify (λ s, set_crystalsRestored (crystalsRestored s ++ [crystalType]) s);;
    s ← get;
    (* Progress story phase *)
    if (length (crystalsRestored s) =? 1)%nat && (currentAct s =? 1)
    then
      modify (set_currentAct 2);;
      modify (set_storyPhase exploration)
    else if (length (crystalsRestored s) =? 5)%nat
    then
      modify (set_currentAct 3);;
      modify (set_storyPhase finale)
    else ret tt
  else ret tt.

(** *** [setState]: shallow merge of a [Partial<GameState>] *)

Record PartialGameState := mkPartial {
  p_health : option Z;
  p_maxHealth : option Z;
  p_inventory : option (list Item.t);
  p_gold : option Z;
  p_currentLocation : option string;
  p_experience : option Z;
  p_level : option Z;
  p_currentAct : option Z;
  p_currentRegion : option string;
  p_activeQuests : option (list Quest.t);
  p_completedQuests : option (list string);
  p_crystalsRestored : option (list string);
  p_storyPhase : option StoryPhase
}.

Definition merge (s : GameState) (p : PartialGameState) : GameState :=
  mkGameState
    (default (health s) (p_health p))
    (default (maxHealth s) (p_maxHealth p))
    (default (inventory s) (p_inventory p))
    (default (gold s) (p_gold p))
    (default (currentLocation s) (p_currentLocation p))
    (default (experience s) (p_experience p))
    (default (level s) (p_level p))
    (default (currentAct s) (p_currentAct p))
    (default (currentRegion s) (p_currentRegion p))
    (default (activeQuests s) (p_activeQuests p))
    (default (completedQuests s) (p_completedQuests p))
    (default (crystalsRestored s) (p_crystalsRestored p))
    (default (storyPhase s) (p_storyPhase p)).

Definition setState (newState : PartialGameState) : Eng unit :=
  modify (λ s, merge s newState).

(** *** Command parsing helpers

    Strings are taken over the code units below 256 (the Latin-1 range of
    JavaScript's UTF-16 code units), where [toLowerCase] and [trim] act as
    below. *)

Definition lower_char (c : ascii) : ascii :=
  let n := nat_of_ascii c in
  if ((65 <=? n) && (n <=? 90))%nat then ascii_of_nat (n + 32)
  else if ((192 <=? n) && (n <=? 222) && negb (n =? 215))%nat
       then ascii_of_nat (n + 32)
       else c.

Fixpoint toLowerCase (s : string) : string :=
  match s with
  | EmptyString => EmptyString
  | String c s' => String (lower_char c) (toLowerCase s')
  end.

(** Tab, line feed, vertical tab, form feed, carriage return, space and
    no-break space. *)
Definition is_white (c : ascii) : bool :=
  let n := nat_of_ascii c in
  (((9 <=? n) && (n <=? 13)) || (n =? 32) || (n =? 160))%nat.

Fixpoint trimStart (s : string) : string :=
  match s with
  | EmptyString => EmptyString
  | String c s' => if is_white c then trimStart s' else s
  end.

Definition trim (s : string) : string :=
  String.rev (trimStart (String.rev (trimStart s))).

(** [hay.includes(needle)] *)
Fixpoint includes (needle hay : string) : bool :=
  String.prefix needle hay ||
  match hay with
  | EmptyString => false
  | String _ hay' => includes needle hay'
  end.

(** [s.split(' ')]: the pieces between single spaces, empty ones kept. *)
Fixpoint split_space (s : string) : list string :=
  match s with
  | EmptyString => [EmptyString]
  | String c s' =>
      if Ascii.eqb c " "%char then EmptyString :: split_space s'
      else match split_space s' with
           | w :: ws => String c w :: ws
           | [] => [String c EmptyString]
           end
  end.

Definition extractTarget (command : string) : string :=
  let words := split_space command in
  let joined := String.concat " " (tail words) in
  if String.eqb joined "" then "unknown" else joined.

Record Parsed := mkParsed {
  action : string;
  target : option string;
  itemName : option string
}.

Definition parseCommand (command : string) : Parsed :=
  let lower := trim (toLowerCase command) in
  if includes "attack" lower
  then mkParsed "attack" (Some (extractTarget lower)) None
  else if includes "defend" lower || includes "block" lower
  then mkParsed "defend" None None
  else if includes "open" lower || includes "unlock" lower
  then mkParsed "unlock" (Some (extractTarget lower)) None
  else if includes "pickup" lower || includes "take" lower
          || includes "grab" lower
  then mkParsed "pickup" None (Some (extractTarget lower))
  else if includes "use" lower
  then mkParsed "use" None (Some (extractTarget lower))
  else if includes "inventory" lower
  then mkParsed "inventory" None None
  else mkParsed "explore" None None.

(** ** Notions the properties are stated with *)

(** The state after one level-up step. *)
Definition level_up (s : GameState) (amount : Z) : GameState :=
  set_health (maxHealth s + 20)
    (set_maxHealth (maxHealth s + 20)
       (set_experience (experience s + amount - level s * 100)
          (set_level (level s + 1) s))).

(** The five crystals of the game. *)
Definition CRYSTALS : list string := ["Nature"; "Water"; "Fire"; "Air"; "Earth"].

(** Restoring crystals one after the other. *)
Definition restoreAll (l : list string) (s : GameState) : GameState :=
  foldl (λ s c, exec (restoreCrystal c) s) s l.

Definition push_crystal (c : string) (s : GameState) : GameState :=
  set_crystalsRestored (crystalsRestored s ++ [c]) s.

(** Act and phase as a function of the number of crystals restored, for a
    game that starts in act 1. *)
Definition act_after (n : nat) : Z :=
  match n with
  | O => 1
  | _ => if (n <? 5)%nat then 2 else 3
  end.

Definition phase_after (n : nat) : StoryPhase :=
  match n with
  | O => awakening
  | _ => if (n <? 5)%nat then exploration else finale
  end.

(** ** Sequences of engine operations *)

Inductive Op :=
  | OpSetState (newState : PartialGameState)
  | OpTakeDamage (amount : Z)
  | OpHeal (amount : Z)
  | OpAddItem (item : Item.t)
  | OpRemoveItem (itemId : string)
  | OpUseItem (itemId : string)
  | OpAddGold (amount : Z)
  | OpSpendGold (amount : Z)
  | OpGainExperience (amount : Z)
  | OpCompleteQuest (questId : string)
  | OpAddQuest (quest : Quest.t)
  | OpRestoreCrystal (crystalType : string).

Definition step (op : Op) (s : GameState) : GameState :=
  match op with
  | OpSetState p => exec (setState p) s
  | OpTakeDamage a => exec (takeDamage a) s
  | OpHeal a => exec (heal a) s
  | OpAddItem i => exec (addItem i) s
  | OpRemoveItem i => exec (removeItem i) s
  | OpUseItem i => exec (useItem i) s
  | OpAddGold a => exec (addGold a) s
  | OpSpendGold a => exec (spendGold a) s
  | OpGainExperience a => exec (gainExperience a) s
  | OpCompleteQuest q => exec (completeQuest q) s
  | OpAddQuest q => exec (addQuest q) s
  | OpRestoreCrystal c => exec (restoreCrystal c) s
  end.

Definition run (ops : list Op) (s : GameState) : GameState :=
  foldl (λ s op, step op s) s ops.

(** What a call returns to its caller. *)
Inductive Result :=
  | RVoid
  | RDamage (r : Z * bool)
  | RHeal (healed : Z)
  | RItem (removed : option Item.t)
  | RUse (r : UseResult)
  | RSpend (ok : bool)
  | RExperience (r : bool * option Z).

Definition result (op : Op) (s : GameState) : Result :=
  match op with
  | OpTakeDamage a => RDamage (eval (takeDamage a) s)
  | OpHeal a => RHeal (eval (heal a) s)
  | OpRemoveItem i => RItem (eval (removeItem i) s)
  | OpUseItem i => RUse (eval (useItem i) s)
  | OpSpendGold a => RSpend (eval (spendGold a) s)
  | OpGainExperience a => RExperience (eval (gainExperience a) s)
  | OpSetState _ | OpAddItem _ | OpAddGold _ | OpCompleteQuest _
  | OpAddQuest _ | OpRestoreCrystal _ => RVoid
  end.

(** The values returned along a sequence of calls. *)
Fixpoint results (ops : list Op) (s : GameState) : list Result :=
  match ops with
  | [] => []
  | op :: ops' => result op s :: results ops' (step op s)
  end.

(** The states reached from INITIAL_STATE by operations that each satisfy
    [ok] in the state they are applied to. *)
Inductive reachable_by (ok : GameState → Op → Prop) : GameState → Prop :=
  | reach_init : reachable_by ok INITIAL_STATE
  | reach_step (s : GameState) (op : Op) :
      reachable_by ok s → ok s op → reachable_by ok (step op s).

Definition any_op (s : GameState) (op : Op) : Prop := True.

(** Reachable by any sequence of operations whatsoever. *)
Definition reachable : GameState → Prop := reachable_by any_op.

(** The potion test of [useItem]: [item.type === 'potion' && item.effect?.health]. *)
Definition usable (item : Item.t) : bool :=
  bool_decide (Item.type item = potion) && truthy (effect_health item).

Definition used_message (item : Item.t) (healed : Z) : string :=
  "Used " +:+ Item.name item +:+ ". Restored " +:+ pretty healed +:+ " HP!".

(** ** Quests: active and completed ids *)

Definition active_ids (s : GameState) : list string :=
  Quest.id <$> activeQuests s.

(** No quest id is both active and completed. *)
Definition quests_disjoint (s : GameState) : Prop :=
  ∀ questId, questId ∈ active_ids s → questId ∉ completedQuests s.

Global Instance quests_disjoint_dec s : Decision (quests_disjoint s).
Proof.
  destruct (decide (Forall (λ q, q ∉ completedQuests s) (active_ids s)))
    as [Hall | Hnot].
  - left. intros q Hq. exact (proj1 (Forall_forall _ _) Hall q Hq).
  - right. intros Hd. apply Hnot. apply Forall_forall. exact Hd.
Defined.

(** Operations that keep the two quest collections apart: [addQuest] is not
    given an id that is already completed (it only looks at the active
    quests), and [setState] does not replace either collection. *)
Definition quest_safe (s : GameState) (op : Op) : Prop :=
  match op with
  | OpAddQuest q => Quest.id q ∉ completedQuests s
  | OpSetState p => p_activeQuests p = None ∧ p_completedQuests p = None
  | _ => True
  end.

(** ** Gold *)

(** Operations that keep the purse from going negative: [addGold] is not
    given a loss larger than the purse, and [setState] does not set gold. *)
Definition gold_safe (s : GameState) (op : Op) : Prop :=
  match op with
  | OpAddGold amount => 0 ≤ gold s + amount
  | OpSetState p => p_gold p = None
  | _ => True
  end.

(** ** Health bounds *)

Definition health_bounded (s : GameState) : Prop :=
  0 ≤ health s ≤ maxHealth s.

Global Instance health_bounded_dec s : Decision (health_bounded s).
Proof. unfold health_bounded. apply _. Defined.

(** A potion whose health effect, if any, is not negative. *)
Definition potion_nonneg (item : Item.t) : Prop :=
  Item.type item = potion → ∀ h, effect_health item = Some h → 0 ≤ h.

(** Operations that keep health within its bounds: damage and healing
    amounts are not negative, potions put in the inventory do not carry a
    negative health effect, and [setState] leaves health, maxHealth and the
    inventory alone.  Any id may be used and any experience gained. *)
Definition health_safe (s : GameState) (op : Op) : Prop :=
  match op with
  | OpTakeDamage amount | OpHeal amount => 0 ≤ amount
  | OpAddItem item => potion_nonneg item
  | OpSetState p =>
      p_health p = None ∧ p_maxHealth p = None ∧ p_inventory p = None
  | _ => True
  end.

Definition health_inv (s : GameState) : Prop :=
  health_bounded s ∧ Forall potion_nonneg (inventory s).

(** ** Using an item *)

(** [inventory.find(i => i.id === itemId)] returns [item], found at [index]:
    the first item of the list that carries the id. *)
Definition first_with_id (itemId : string) (l : list Item.t)
    (index : nat) (item : Item.t) : Prop :=
  l !! index = Some item ∧ Item.id item = itemId
  ∧ ∀ j y, l !! j = Some y → (j < index)%nat → Item.id y ≠ itemId.

Definition no_item_with_id (itemId : string) (l : list Item.t) : Prop :=
  ∀ item, item ∈ l → Item.id item ≠ itemId.

(** A potion with a health effect [h] that is not zero. *)
Definition healing_potion (item : Item.t) (h : Z) : Prop :=
  Item.type item = potion ∧ effect_health item = Some h ∧ h ≠ 0.

Definition not_found : UseResult := mkUseResult false "Item not found" None.
Definition cannot_use : UseResult :=
  mkUseResult false "Cannot use this item now" None.

(** ** Command parsing *)

Definition ACTIONS : list string :=
  ["attack"; "defend"; "unlock"; "pickup"; "use"; "inventory"; "explore"].

Definition KEYWORDS : list string :=
  ["attack"; "defend"; "block"; "open"; "unlock"; "pickup"; "take"; "grab";
   "use"; "inventory"].

(** The string the keywords are looked up in. *)
Definition lowered (command : string) : string := trim (toLowerCase command).

Fixpoint has_space (s : string) : bool :=
  match s with
  | EmptyString => false
  | String c s' => Ascii.eqb c " "%char || has_space s'
  end.

(** ** The engine on the JavaScript heap

    Objects and arrays are heap cells reached through references.  A
    GameState object stores its numbers, strings and phase in the object and
    refers to its four arrays; the engine object refers to its state
    object.  [{ ...obj }] makes a new object with the same field values, so
    the same array references. *)

Module Heap.

Abbreviation loc := positive.

Record StateObj := mkStateObj {
  o_health : Z;
  o_maxHealth : Z;
  o_inventory : loc;
  o_gold : Z;
  o_currentLocation : string;
  o_experience : Z;
  o_level : Z;
  o_currentAct : Z;
  o_currentRegion : string;
  o_activeQuests : loc;
  o_completedQuests : loc;
  o_crystalsRestored : loc;
  o_storyPhase : StoryPhase
}.

Inductive cell :=
  | CEngine (state : loc)
  | CState (o : StateObj)
  | CItems (l : list Item.t)
  | CQuests (l : list Quest.t)
  | CStrings (l : list string).

Abbreviation heap := (gmap positive cell).

Definition get_engine (h : heap) (l : loc) : option loc :=
  match h !! l with Some (CEngine st) => Some st | _ => None end.
Definition get_state (h : heap) (l : loc) : option StateObj :=
  match h !! l with Some (CState o) => Some o | _ => None end.
Definition get_items (h : heap) (l : loc) : option (list Item.t) :=
  match h !! l with Some (CItems x) => Some x | _ => None end.
Definition get_quests (h : heap) (l : loc) : option (list Quest.t) :=
  match h !! l with Some (CQuests x) => Some x | _ => None end.
Definition get_strings (h : heap) (l : loc) : option (list string) :=
  match h !! l with Some (CStrings x) => Some x | _ => None end.

(** The state object at [st] read as a value, arrays included. *)
Definition view_state (h : heap) (st : loc) : option GameState :=
  o ← get_state h st;
  inv ← get_items h (o_inventory o);
  aq ← get_quests h (o_activeQuests o);
  cq ← get_strings h (o_completedQuests o);
  cr ← get_strings h (o_crystalsRestored o);
  Some (mkGameState (o_health o) (o_maxHealth o) inv (o_gold o)
          (o_currentLocation o) (o_experience o) (o_level o) (o_currentAct o)
          (o_currentRegion o) aq cq cr (o_storyPhase o)).

(** What the engine [this] holds: the value of [this.state]. *)
Definition view (h : heap) (this : loc) : option GameState :=
  st ← get_engine h this; view_state h st.

(** *** Heap computations: a state monad that fails on a dangling or
    ill-typed reference *)

Definition HM (A : Type) : Type := heap → option (A * heap).

Global Instance HM_ret : MRet HM := λ A a h, Some (a, h).
Global Instance HM_bind : MBind HM :=
  λ A B k m h, match m h with Some (a, h') => k a h' | None => None end.

Definition read {A} (get : heap → loc → option A) (l : loc) : HM A :=
  λ h, match get h l with Some a => Some (a, h) | None => None end.
Definition write (l : loc) (c : cell) : HM unit :=
  λ h, Some (tt, <[l := c]> h).
Definition new (c : cell) : HM loc :=
  λ h, let l := fresh (dom h) in Some (l, <[l := c]> h).

(** *** Field assignments on a state object *)

Definition o_set_health (v : Z) (o : StateObj) : StateObj :=
  mkStateObj v (o_maxHealth o) (o_inventory o) (o_gold o)
    (o_currentLocation o) (o_experience o) (o_level o) (o_currentAct o)
    (o_currentRegion o) (o_activeQuests o) (o_completedQuests o)
    (o_crystalsRestored o) (o_storyPhase o).

Definition o_set_maxHealth (v : Z) (o : StateObj) : StateObj :=
  mkStateObj (o_health o) v (o_inventory o) (o_gold o)
    (o_currentLocation o) (o_experience o) (o_level o) (o_currentAct o)
    (o_currentRegion o) (o_activeQuests o) (o_completedQuests o)
    (o_crystalsRestored o) (o_storyPhase o).

Definition o_set_gold (v : Z) (o : StateObj) : StateObj :=
  mkStateObj (o_health o) (o_maxHealth o) (o_inventory o) v
    (o_currentLocation o) (o_experience o) (o_level o) (o_currentAct o)
    (o_currentRegion o) (o_activeQuests o) (o_completedQuests o)
    (o_crystalsRestored o) (o_storyPhase o).

Definition o_set_experience (v : Z) (o : StateObj) : StateObj :=
  mkStateObj (o_health o) (o_maxHealth o) (o_inventory o) (o_gold o)
    (o_currentLocation o) v (o_level o) (o_currentAct o)
    (o_currentRegion o) (o_activeQuests o) (o_completedQuests o)
    (o_crystalsRestored o) (o_storyPhase o).

Definition o_set_level (v : Z) (o : StateObj) : StateObj :=
  mkStateObj (o_health o) (o_maxHealth o) (o_inventory o) (o_gold o)
    (o_currentLocation o) (o_experience o) v (o_currentAct o)
    (o_currentRegion o) (o_activeQuests o) (o_completedQuests o)
    (o_crystalsRestored o) (o_storyPhase o).

Definition o_set_currentAct (v : Z) (o : StateObj) : StateObj :=
  mkStateObj (o_health o) (o_maxHealth o) (o_inventory o) (o_gold o)
    (o_currentLocation o) (o_experience o) (o_level o) v
    (o_currentRegion o) (o_activeQuests o) (o_completedQuests o)
    (o_crystalsRestored o) (o_storyPhase o).

Definition o_set_activeQuests (v : loc) (o : StateObj) : StateObj :=
  mkStateObj (o_health o) (o_maxHealth o) (o_inventory o) (o_gold o)
    (o_currentLocation o) (o_experience o) (o_level o) (o_currentAct o)
    (o_currentRegion o) v (o_completedQuests o)
    (o_crystalsRestored o) (o_storyPhase o).

Definition o_set_storyPhase (v : StoryPhase) (o : StateObj) : StateObj :=
  mkStateObj (o_health o) (o_maxHealth o) (o_inventory o) (o_gold o)
    (o_currentLocation o) (o_experience o) (o_level o) (o_currentAct o)
    (o_currentRegion o) (o_activeQuests o) (o_completedQuests o)
    (o_crystalsRestored o) v.

(** [this.state.f = v]: read the state object, assign, write it back. *)
Definition assign (this : loc) (f : StateObj → StateObj) : HM unit :=
  st ← read get_engine this;
  o ← read get_state st;
  write st (CState (f o)).

(** [this.state] as an object value. *)
Definition this_state (this : loc) : HM StateObj :=
  st ← read get_engine this; read get_state st.

(** *** The class *)

(** [constructor(initialState) { this.state = { ...initialState } }] *)
Definition construct (initialState : loc) : HM loc :=
  o ← read get_state initialState;
  st ← new (CState o);
  new (CEngine st).

(** [getState() { return { ...this.state } }] *)
Definition getState (this : loc) : HM loc :=
  o ← this_state this;
  new (CState o).

Definition takeDamage (this : loc) (amount : Z) : HM (Z * bool) :=
  o ← this_state this;
  assign this (o_set_health (Z.max 0 (o_health o - amount)));;
  o ← this_state this;
  mret (o_health o, bool_decide (o_health o = 0)).

Definition heal (this : loc) (amount : Z) : HM Z :=
  o ← this_state this;
  let oldHealth := o_health o in
  assign this (o_set_health (Z.min (o_maxHealth o) (o_health o + amount)));;
  o ← this_state this;
  mret (o_health o - oldHealth).

Definition addItem (this : loc) (item : Item.t) : HM unit :=
  o ← this_state this;
  inv ← read get_items (o_inventory o);
  write (o_inventory o) (CItems (inv ++ [item])).

Definition removeItem (this : loc) (itemId : string) : HM (option Item.t) :=
  o ← this_state this;
  inv ← read get_items (o_inventory o);
  match list_find (has_id itemId) inv with
  | None => mret None
  | Some (index, item) =>
      write (o_inventory o) (CItems (delete index inv));;
      mret (Some item)
  end.

Definition useItem (this : loc) (itemId : string) : HM UseResult :=
  o ← this_state this;
  inv ← read get_items (o_inventory o);
  match list_find (has_id itemId) inv with
  | None => mret (mkUseResult false "Item not found" None)
  | Some (_, item) =>
      if bool_decide (Item.type item = potion) && truthy (effect_health item)
      then
        healed ← heal this (default 0 (effect_health item));
        removeItem this itemId;;
        mret (mkUseResult true
                ("Used " +:+ Item.name item +:+ ". Restored "
                   +:+ pretty healed +:+ " HP!")
                (Some healed))
      else mret (mkUseResult false "Cannot use this item now" None)
  end.

Definition addGold (this : loc) (amount : Z) : HM unit :=
  o ← this_state this;
  assign this (o_set_gold (o_gold o + amount)).

Definition spendGold (this : loc) (amount : Z) : HM bool :=
  o ← this_state this;
  if o_gold o >=? amount
  then assign this (o_set_gold (o_gold o - amount));; mret true
  else mret false.

Definition gainExperience (this : loc) (amount : Z) : HM (bool * option Z) :=
  assign this (λ o, o_set_experience (o_experience o + amount) o);;
  o ← this_state this;
  let expNeeded := o_level o * 100 in
  if o_experience o >=? expNeeded
  then
    assign this (λ o, o_set_level (o_level o + 1) o);;
    assign this (λ o, o_set_experience (o_experience o - expNeeded) o);;
    assign this (λ o, o_set_maxHealth (o_maxHealth o + 20) o);;
    assign this (λ o, o_set_health (o_maxHealth o) o);;
    o ← this_state this;
    mret (true, Some (o_level o))
  else mret (false, None).

(** [filter] builds a new array; the pushes work in place. *)
Definition completeQuest (this : loc) (questId : string) : HM unit :=
  o ← this_state this;
  aq ← read get_quests (o_activeQuests o);
  match list_find (quest_has_id questId) aq with
  | Some (index, quest) =>
      write (o_activeQuests o) (CQuests (<[index := mark_completed quest]> aq));;
      cq ← read get_strings (o_completedQuests o);
      write (o_completedQuests o) (CStrings (cq ++ [questId]));;
      aq ← read get_quests (o_activeQuests o);
      filtered ← new (CQuests (filter (λ q, Quest.id q ≠ questId) aq));
      assign this (o_set_activeQuests filtered)
  | None => mret tt
  end.

Definition addQuest (this : loc) (quest : Quest.t) : HM unit :=
  o ← this_state this;
  aq ← read get_quests (o_activeQuests o);
  match list_find (quest_has_id (Quest.id quest)) aq with
  | None => write (o_activeQuests o) (CQuests (aq ++ [quest]))
  | Some _ => mret tt
  end.

Definition restoreCrystal (this : loc) (crystalType : string) : HM unit :=
  o ← this_state this;
  cr ← read get_strings (o_crystalsRestored o);
  if negb (bool_decide (crystalType ∈ cr))
  then
    write (o_crystalsRestored o) (CStrings (cr ++ [crystalType]));;
    cr ← read get_strings (o_crystalsRestored o);
    if (length cr =? 1)%nat && (o_currentAct o =? 1)
    then
      assign this (o_set_currentAct 2);;
      assign this (o_set_storyPhase exploration)
    else if (length cr =? 5)%nat
    then
      assign this (o_set_currentAct 3);;
      assign this (o_set_storyPhase finale)
    else mret tt
  else mret tt.

(** A [Partial<GameState>] object: arrays are given by reference. *)
Record PartialObj := mkPartialObj {
  po_health : option Z;
  po_maxHealth : option Z;
  po_inventory : option loc;
  po_gold : option Z;
  po_currentLocation : option string;
  po_experience : option Z;
  po_level : option Z;
  po_currentAct : option Z;
  po_currentRegion : option string;
  po_activeQuests : option loc;
  po_completedQuests : option loc;
  po_crystalsRestored : option loc;
  po_storyPhase : option StoryPhase
}.

Definition o_merge (o : StateObj) (p : PartialObj) : StateObj :=
  mkStateObj
    (default (o_health o) (po_health p))
    (default (o_maxHealth o) (po_maxHealth p))
    (default (o_inventory o) (po_inventory p))
    (default (o_gold o) (po_gold p))
    (default (o_currentLocation o) (po_currentLocation p))
    (default (o_experience o) (po_experience p))
    (default (o_level o) (po_level p))
    (default (o_currentAct o) (po_currentAct p))
    (default (o_currentRegion o) (po_currentRegion p))
    (default (o_activeQuests o) (po_activeQuests p))
    (default (o_completedQuests o) (po_completedQuests p))
    (default (o_crystalsRestored o) (po_crystalsRestored p))
    (default (o_storyPhase o) (po_storyPhase p)).

(** [setState(newState) { this.state = { ...this.state, ...newState } }] *)
Definition setState (this : loc) (newState : PartialObj) : HM unit :=
  o ← this_state this;
  st ← new (CState (o_merge o newState));
  write this (CEngine st).

(** *** The caller's side *)

(** An optional array literal built by the caller. *)
Definition new_opt {A} (mk : A → cell) (v : option A) : HM (option loc) :=
  match v with
  | Some x => l ← new (mk x); mret (Some l)
  | None => mret None
  end.

(** The caller builds the argument of [setState] with fresh arrays. *)
Definition new_partial (p : PartialGameState) : HM PartialObj :=
  inv ← new_opt CItems (p_inventory p);
  aq ← new_opt CQuests (p_activeQuests p);
  cq ← new_opt CStrings (p_completedQuests p);
  cr ← new_opt CStrings (p_crystalsRestored p);
  mret (mkPartialObj (p_health p) (p_maxHealth p) inv (p_gold p)
          (p_currentLocation p) (p_experience p) (p_level p)
          (p_currentAct p) (p_currentRegion p) aq cq cr (p_storyPhase p)).

(** One engine call on the engine object [this]. *)
Definition hstep (this : loc) (op : Op) : HM Result :=
  match op with
  | OpSetState p => po ← new_partial p; setState this po;; mret RVoid
  | OpTakeDamage a => r ← takeDamage this a; mret (RDamage r)
  | OpHeal a => r ← heal this a; mret (RHeal r)
  | OpAddItem i => addItem this i;; mret RVoid
  | OpRemoveItem i => r ← removeItem this i; mret (RItem r)
  | OpUseItem i => r ← useItem this i; mret (RUse r)
  | OpAddGold a => addGold this a;; mret RVoid
  | OpSpendGold a => r ← spendGold this a; mret (RSpend r)
  | OpGainExperience a => r ← gainExperience this a; mret (RExperience r)
  | OpCompleteQuest q => completeQuest this q;; mret RVoid
  | OpAddQuest q => addQuest this q;; mret RVoid
  | OpRestoreCrystal c => restoreCrystal this c;; mret RVoid
  end.

Fixpoint hrun (this : loc) (ops : list Op) : HM (list Result) :=
  match ops with
  | [] => mret []
  | op :: ops' =>
      r ← hstep this op; rs ← hrun this ops'; mret (r :: rs)
  end.

(** The caller assigns fields of a state object it holds: afterwards the
    object has the field values [o']. *)
Definition caller_assign (r : loc) (o' : StateObj) : HM unit :=
  read get_state r;; write r (CState o').

(** The caller pushes an item onto an inventory array it holds. *)
Definition caller_push_item (r : loc) (item : Item.t) : HM unit :=
  o ← read get_state r;
  inv ← read get_items (o_inventory o);
  write (o_inventory o) (CItems (inv ++ [item])).

(** The caller pushes a string onto the crystalsRestored array it holds. *)
Definition caller_push_crystal (r : loc) (c : string) : HM unit :=
  o ← read get_state r;
  cr ← read get_strings (o_crystalsRestored o);
  write (o_crystalsRestored o) (CStrings (cr ++ [c])).

(** The module-level constant INITIAL_STATE as heap cells, and the engine
    made from it by [new GameEngine()]. *)
Definition initial_heap : HM loc :=
  inv ← new (CItems (inventory INITIAL_STATE));
  aq ← new (CQuests (activeQuests INITIAL_STATE));
  cq ← new (CStrings (completedQuests INITIAL_STATE));
  cr ← new (CStrings (crystalsRestored INITIAL_STATE));
  new (CState (mkStateObj (health INITIAL_STATE) (maxHealth INITIAL_STATE) inv
                 (gold INITIAL_STATE) (currentLocation INITIAL_STATE)
                 (experience INITIAL_STATE) (level INITIAL_STATE)
                 (currentAct INITIAL_STATE) (currentRegion INITIAL_STATE)
                 aq cq cr (storyPhase INITIAL_STATE))).

Definition gameEngine : HM loc :=
  initial ← initial_heap; construct initial.

End Heap.

(** ** The heap engine against the engine on values *)

Definition obj_of (s : GameState) (li la lc lr : positive) : Heap.StateObj :=
  Heap.mkStateObj (health s) (maxHealth s) li (gold s) (currentLocation s)
    (experience s) (level s) (currentAct s) (currentRegion s) la lc lr
    (storyPhase s).

(** The engine object [this] holds the state [s]: its state object and the
    four arrays are in the heap with the values of [s], and completedQuests
    and crystalsRestored are two arrays. *)
Definition represents (h : gmap positive Heap.cell) (this : positive)
    (s : GameState) : Prop :=
  ∃ st li la lc lr,
    h !! this = Some (Heap.CEngine st)
    ∧ h !! st = Some (Heap.CState (obj_of s li la lc lr))
    ∧ h !! li = Some (Heap.CItems (inventory s))
    ∧ h !! la = Some (Heap.CQuests (activeQuests s))
    ∧ h !! lc = Some (Heap.CStrings (completedQuests s))
    ∧ h !! lr = Some (Heap.CStrings (crystalsRestored s))
    ∧ lc ≠ lr.

(** The heap right after [export const gameEngine = new GameEngine()], and
    the address of the engine object in it. *)
Definition engine_heap : gmap positive Heap.cell :=
  default ∅ (snd <$> Heap.gameEngine ∅).
Definition engine_this : positive :=
  default 1%positive (fst <$> Heap.gameEngine ∅).

Definition elixir : Item.t :=
  Item.mk "elixir" "Elixir" potion 40 "Restores 50 HP"
          (Some (Effect.mk (Some 50) None None)).

(** A caller takes the state with [getState], optionally pushes an item and
    a crystal name onto the arrays of the record it got, and the engine is
    then asked to use the item and restore the crystal.  The outcome is the
    engine's state before, its state after the caller's step, the result of
    [useItem], and the engine's final state. *)
Definition caller_scenario (tamper : bool)
    : Heap.HM (GameState * GameState * UseResult * GameState) :=
  before ← Heap.read Heap.view engine_this;
  r ← Heap.getState engine_this;
  (if tamper
   then Heap.caller_push_item r elixir;; Heap.caller_push_crystal r "Nature"
   else mret tt);;
  after ← Heap.read Heap.view engine_this;
  used ← Heap.useItem engine_this "elixir";
  Heap.restoreCrystal engine_this "Nature";;
  final ← Heap.read Heap.view engine_this;
  mret (before, after, used, final).

(** ** The caller: the effects of a response ([handleCommand])

    The response of the narrative service carries a [gameEffects] object
    (numbers, an array of items, strings and a quest update, each of them
    optional); [handleCommand] turns it into engine calls. *)

Module QuestUpdate.
Record t := mk {
  questId : string;
  status : string
}.
End QuestUpdate.

Record GameEffects := mkGameEffects {
  healthChange : option Z;
  goldChange : option Z;
  experienceGain : option Z;
  itemsFound : option (list Item.t);
  locationUpdate : option string;
  questUpdate : option QuestUpdate.t;
  crystalRestored : option string
}.

(** [if (x) k(x)] for an optional number: present and not zero. *)
Definition when_number (x : option Z) (k : Z → Eng unit) : Eng unit :=
  match x with
  | Some v => if v =? 0 then ret tt else k v
  | None => ret tt
  end.

(** [if (x) k(x)] for an optional string: present and not empty. *)
Definition when_string (x : option string) (k : string → Eng unit) : Eng unit :=
  match x with
  | Some v => if String.eqb v "" then ret tt else k v
  | None => ret tt
  end.

(** [items.forEach(item => k(item))] *)
Fixpoint forEach {A} (k : A → Eng unit) (items : list A) : Eng unit :=
  match items with
  | [] => ret tt
  | item :: rest => k item;; forEach k rest
  end.

(** [{ currentLocation: v }] *)
Definition location_only (v : string) : PartialGameState :=
  mkPartial None None None None (Some v) None None None None None None None
    None.

(** The block of [handleCommand] that updates the game state from the
    response. *)
Definition applyEffects (effects : GameEffects) : Eng unit :=
  when_number (healthChange effects) (λ change,
    if change <? 0
    then takeDamage (Z.abs change);; ret tt
    else heal change;; ret tt);;
  when_number (goldChange effects) addGold;;
  when_number (experienceGain effects) (λ gain,
    gainExperience gain;; ret tt);;
  match itemsFound effects with
  | Some items =>
      if (0 <? length items)%nat then forEach addItem items else ret tt
  | None => ret tt
  end;;
  when_string (locationUpdate effects) (λ v, setState (location_only v));;
  match questUpdate effects with
  | Some update =>
      if String.eqb (QuestUpdate.status update) "complete"
      then completeQuest (QuestUpdate.questId update)
      else ret tt
  | None => ret tt
  end;;
  when_string (crystalRestored effects) restoreCrystal.

(** The engine calls [applyEffects] makes, in order. *)
Definition number_ops (x : option Z) (k : Z → list Op) : list Op :=
  match x with
  | Some v => if v =? 0 then [] else k v
  | None => []
  end.

Definition string_ops (x : option string) (k : string → list Op) : list Op :=
  match x with
  | Some v => if String.eqb v "" then [] else k v
  | None => []
  end.

Definition effect_ops (effects : GameEffects) : list Op :=
  number_ops (healthChange effects) (λ change,
    if change <? 0 then [OpTakeDamage (Z.abs change)] else [OpHeal change])
  ++ number_ops (goldChange effects) (λ v, [OpAddGold v])
  ++ number_ops (experienceGain effects) (λ v, [OpGainExperience v])
  ++ (OpAddItem <$> default [] (itemsFound effects))
  ++ string_ops (locationUpdate effects) (λ v, [OpSetState (location_only v)])
  ++ match questUpdate effects with
     | Some update =>
         if String.eqb (QuestUpdate.status update) "complete"
         then [OpCompleteQuest (QuestUpdate.questId update)]
         else []
     | None => []
     end
  ++ string_ops (crystalRestored effects) (λ v, [OpRestoreCrystal v]).

(** The states of a session: INITIAL_STATE, then the effects of one
    response after the other. *)
Definition session (responses : list GameEffects) : GameState :=
  foldl (λ s effects, exec (applyEffects effects) s) INITIAL_STATE responses.

(** A response whose fields are absent, zero or empty, and whose quest
    update, if any, is not a completion. *)
Definition idle (effects : GameEffects) : Prop :=
  (healthChange effects = None ∨ healthChange effects = Some 0)
  ∧ (goldChange effects = None ∨ goldChange effects = Some 0)
  ∧ (experienceGain effects = None ∨ experienceGain effects = Some 0)
  ∧ (itemsFound effects = None ∨ itemsFound effects = Some [])
  ∧ (locationUpdate effects = None ∨ locationUpdate effects = Some EmptyString)
  ∧ (∀ update, questUpdate effects = Some update →
       QuestUpdate.status update ≠ "complete")
  ∧ (crystalRestored effects = None
     ∨ crystalRestored effects = Some EmptyString).

(** ** Further notions *)

(** All the experience gained so far: what is held, plus the thresholds
    100, 200, ..., (level - 1) * 100 paid for the levels reached. *)
Definition total_xp (s : GameState) : Z :=
  experience s + 50 * level s * (level s - 1).

(** Operations that leave level and maxHealth to [gainExperience]. *)
Definition progress_safe (s : GameState) (op : Op) : Prop :=
  match op with
  | OpSetState p => p_level p = None ∧ p_maxHealth p = None
  | _ => True
  end.

(** Operations that leave the crystals, the act and the phase to
    [restoreCrystal]. *)
Definition story_safe (s : GameState) (op : Op) : Prop :=
  match op with
  | OpSetState p =>
      p_crystalsRestored p = None ∧ p_currentAct p = None
      ∧ p_storyPhase p = None
  | _ => True
  end.

(** Operations that leave the quest collections to [addQuest] and
    [completeQuest]. *)
Definition quest_lists_safe (s : GameState) (op : Op) : Prop :=
  match op with
  | OpSetState p => p_activeQuests p = None ∧ p_completedQuests p = None
  | _ => True
  end.

(** Act and phase follow the number of crystals restored, and no crystal
    is restored twice. *)
Definition story_inv (s : GameState) : Prop :=
  NoDup (crystalsRestored s)
  ∧ currentAct s = act_after (length (crystalsRestored s))
  ∧ storyPhase s = phase_after (length (crystalsRestored s)).

(** Operations that leave completedQuests and crystalsRestored to
    [completeQuest] and [restoreCrystal]. *)
Definition lists_kept (op : Op) : Prop :=
  match op with
  | OpSetState p => p_completedQuests p = None ∧ p_crystalsRestored p = None
  | _ => True
  end.

(** The engine calls a response can lead to: positive damage or healing,
    any change of gold or experience, items, a location, a completed quest,
    a crystal. *)
Definition response_op (op : Op) : Prop :=
  match op with
  | OpTakeDamage amount | OpHeal amount => 0 < amount
  | OpSetState p => ∃ v, p = location_only v
  | OpAddGold _ | OpGainExperience _ | OpAddItem _ | OpCompleteQuest _
  | OpRestoreCrystal _ => True
  | OpRemoveItem _ | OpUseItem _ | OpSpendGold _ | OpAddQuest _ => False
  end.

(** The gold changes of a session, added up. *)
Definition gold_changes (responses : list GameEffects) : Z :=
  foldr (λ effects total, default 0 (goldChange effects) + total) 0 responses.

(** The experience gains of a session, added up, and the items found,
    in order. *)
Definition xp_gains (responses : list GameEffects) : Z :=
  foldr (λ effects total, default 0 (experienceGain effects) + total) 0
        responses.

Definition items_found (responses : list GameEffects) : list Item.t :=
  foldr (λ effects found, default [] (itemsFound effects) ++ found) []
        responses.

(** What a list of calls adds to gold, to the total experience and to the
    inventory. *)
Fixpoint gold_added (ops : list Op) : Z :=
  match ops with
  | [] => 0
  | OpAddGold amount :: ops' => amount + gold_added ops'
  | _ :: ops' => gold_added ops'
  end.

Fixpoint xp_added (ops : list Op) : Z :=
  match ops with
  | [] => 0
  | OpGainExperience amount :: ops' => amount + xp_added ops'
  | _ :: ops' => xp_added ops'
  end.

Fixpoint items_added (ops : list Op) : list Item.t :=
  match ops with
  | [] => []
  | OpAddItem item :: ops' => item :: items_added ops'
  | _ :: ops' => items_added ops'
  end.

(** Calls that touch health or gold only. *)
Definition vitals_call (op : Op) : Prop :=
  match op with
  | OpTakeDamage _ | OpHeal _ | OpAddGold _ => True
  | _ => False
  end.

(** Calls a response makes after the experience is gained. *)
Definition late_call (op : Op) : Prop :=
  match op with
  | OpAddItem _ | OpCompleteQuest _ | OpRestoreCrystal _ => True
  | OpSetState p => ∃ v, p = location_only v
  | _ => False
  end.

(** The keywords of [parseCommand] as a priority table: the action of the
    first row with a keyword in the command wins. *)
Definition RULES : list (list string * string) :=
  [ (["attack"], "attack");
    (["defend"; "block"], "defend");
    (["open"; "unlock"], "unlock");
    (["pickup"; "take"; "grab"], "pickup");
    (["use"], "use");
    (["inventory"], "inventory") ].

Definition matches (text : string) (rule : list string * string) : bool :=
  existsb (λ kw, includes kw text) rule.1.

Definition classify (text : string) : string :=
  match List.find (matches text) RULES with
  | Some rule => rule.2
  | None => "explore"
  end.

(** The state object at [st] holds the state [s]. *)
Definition holds_state (h : gmap positive Heap.cell) (st : positive)
    (s : GameState) : Prop :=
  ∃ li la lc lr,
    h !! st = Some (Heap.CState (obj_of s li la lc lr))
    ∧ h !! li = Some (Heap.CItems (inventory s))
    ∧ h !! la = Some (Heap.CQuests (activeQuests s))
    ∧ h !! lc = Some (Heap.CStrings (completedQuests s))
    ∧ h !! lr = Some (Heap.CStrings (crystalsRestored s))
    ∧ lc ≠ lr.

(** The heap that holds INITIAL_STATE alone (its state object is at
    address 5). *)
Definition initial_cells : gmap positive Heap.cell :=
  default ∅ (snd <$> Heap.initial_heap ∅).

(** * Properties of the engine *)

(** ** Checks on concrete inputs *)

Example gainExperience_100 :
  gainExperience 100 INITIAL_STATE
  = ((true, Some 2),
     set_health 120 (set_maxHealth 120 (set_level 2 INITIAL_STATE))).
Proof. reflexivity. Qed.

Example useItem_potion :
  eval (useItem "health-potion") INITIAL_STATE
  = mkUseResult true "Used Health Potion. Restored 0 HP!" (Some 0).
Proof. vm_compute. reflexivity. Qed.

Example parse_take :
  parseCommand "take the rusty sword"
  = mkParsed "pickup" None (Some "the rusty sword").
Proof. vm_compute. reflexivity. Qed.

Example parse_mixed :
  parseCommand "  ATTACK  the Goblin " = mkParsed "attack" (Some " the goblin") None.
Proof. vm_compute. reflexivity. Qed.

Example parse_one_word : parseCommand "Use" = mkParsed "use" None (Some "unknown").
Proof. vm_compute. reflexivity. Qed.

Example completeQuest_initial :
  let s := exec (completeQuest "awakening") INITIAL_STATE in
  activeQuests s = [] ∧ completedQuests s = ["awakening"].
Proof. vm_compute. auto. Qed.

(** ** Unfolding a method body *)

Ltac eng_unfold :=
  unfold exec, eval, ret, get, modify, mbind, Eng_bind, mret, Eng_ret in *;
  simpl in *.

Lemma Zgeb_ge (a b : Z) : (a >=? b) = true ↔ b ≤ a.
Proof. rewrite Z.geb_le. reflexivity. Qed.

Lemma Zgeb_lt (a b : Z) : (a >=? b) = false ↔ a < b.
Proof. rewrite Z.geb_leb, Z.leb_gt. reflexivity. Qed.

(** ** Healing *)

Lemma heal_unfold (amount : Z) (s : GameState) :
  heal amount s
  = (Z.min (maxHealth s) (health s + amount) - health s,
     set_health (Z.min (maxHealth s) (health s + amount)) s).
Proof. reflexivity. Qed.

(** C6: for every state and every amount >= 0, [heal amount] sets health to
    min(maxHealth, health + amount), changes no other field, and returns
    min(amount, maxHealth - healthBefore). *)
Theorem heal_min (s : GameState) (amount : Z) :
  0 ≤ amount →
  exec (heal amount) s = set_health (Z.min (maxHealth s) (health s + amount)) s
  ∧ health (exec (heal amount) s) = Z.min (maxHealth s) (health s + amount)
  ∧ eval (heal amount) s = Z.min amount (maxHealth s - health s).
Proof.
  intros _. unfold exec, eval. rewrite heal_unfold. simpl.
  split; [reflexivity | split; [reflexivity | lia]].
Qed.

Lemma heal_min_witness :
  health (exec (heal 30) (set_health 80 INITIAL_STATE)) = 100
  ∧ eval (heal 30) (set_health 80 INITIAL_STATE) = 20.
Proof.
  destruct (heal_min (set_health 80 INITIAL_STATE) 30) as (_ & Hh & Hr);
    [lia |].
  rewrite Hh, Hr. split; reflexivity.
Defined.

(** ** Experience and levels *)

Lemma gainExperience_unfold (amount : Z) (s : GameState) :
  gainExperience amount s
  = if experience s + amount >=? level s * 100
    then ((true, Some (level s + 1)), level_up s amount)
    else ((false, None), set_experience (experience s + amount) s).
Proof.
  unfold gainExperience. eng_unfold.
  destruct (experience s + amount >=? level s * 100); reflexivity.
Qed.

(** C1 (as the code has it): for every non-negative amount,
    [gainExperience amount] adds amount to experience and then, when
    experience >= level * 100, performs one level-up step: level + 1,
    experience minus the threshold, maxHealth + 20, health reset to the new
    maxHealth, reporting the level-up with the new level; it reports no
    level-up otherwise.  The step is not repeated, so experience < level * 100
    holds afterwards when the experience gained stays below the next
    threshold as well.  [gainExperience 100] at level 1 with experience 0
    yields level 2, experience 0, maxHealth 120, health 120. *)
Theorem gainExperience_single_step (s : GameState) (amount : Z) :
  0 ≤ amount →
  (level s * 100 ≤ experience s + amount →
     gainExperience amount s = ((true, Some (level s + 1)), level_up s amount))
  ∧ (experience s + amount < level s * 100 →
     gainExperience amount s
     = ((false, None), set_experience (experience s + amount) s))
  ∧ (experience s + amount < level s * 100 + (level s + 1) * 100 →
     experience (exec (gainExperience amount) s)
     < level (exec (gainExperience amount) s) * 100)
  ∧ (let s' := exec (gainExperience 100) INITIAL_STATE in
     eval (gainExperience 100) INITIAL_STATE = (true, Some 2)
     ∧ level s' = 2 ∧ experience s' = 0
     ∧ maxHealth s' = 120 ∧ health s' = 120).
Proof.
  intros _. unfold exec. rewrite gainExperience_unfold.
  repeat split; try reflexivity.
  - intros H. apply Zgeb_ge in H. rewrite H. reflexivity.
  - intros H. apply Zgeb_lt in H. rewrite H. reflexivity.
  - intros H. destruct (experience s + amount >=? level s * 100) eqn:E.
    + simpl. lia.
    + apply Zgeb_lt in E. simpl. lia.
Qed.

Lemma gainExperience_single_step_witness :
  gainExperience 40 (set_experience 70 INITIAL_STATE)
  = ((true, Some 2), level_up (set_experience 70 INITIAL_STATE) 40)
  ∧ experience (exec (gainExperience 40) (set_experience 70 INITIAL_STATE))
    < level (exec (gainExperience 40) (set_experience 70 INITIAL_STATE)) * 100
  ∧ gainExperience 20 (set_experience 70 INITIAL_STATE)
    = ((false, None), set_experience 90 (set_experience 70 INITIAL_STATE)).
Proof.
  destruct (gainExperience_single_step (set_experience 70 INITIAL_STATE) 40)
    as (Hup & _ & Hlt & _); [lia |].
  destruct (gainExperience_single_step (set_experience 70 INITIAL_STATE) 20)
    as (_ & Hno & _); [lia |].
  split; [apply Hup; simpl; lia |].
  split; [apply Hlt; simpl; lia | apply Hno; simpl; lia].
Defined.

(** C1 as stated fails: one call performs at most one level-up, so after
    [gainExperience 300] at level 1 the experience (200) is not below the
    threshold of the new level (2 * 100). *)
Lemma gainExperience_no_cascade :
  let s' := exec (gainExperience 300) INITIAL_STATE in
  0 ≤ 300 ∧ level s' = 2 ∧ experience s' = 200
  ∧ ¬ (experience s' < level s' * 100).
Proof. simpl. repeat split; lia. Qed.

(** ** Gold *)

Lemma spendGold_unfold (amount : Z) (s : GameState) :
  spendGold amount s
  = if gold s >=? amount then (true, set_gold (gold s - amount) s)
    else (false, s).
Proof.
  unfold spendGold. eng_unfold. destruct (gold s >=? amount); reflexivity.
Qed.

Lemma spendGold_nonneg (amount : Z) (s : GameState) :
  0 ≤ gold s → 0 ≤ gold (exec (spendGold amount) s).
Proof.
  intros H. unfold exec. rewrite spendGold_unfold.
  destruct (gold s >=? amount) eqn:E; [apply Zgeb_ge in E; simpl; lia | done].
Qed.

(** C8, the code at the failing input: [addGold] with a negative amount
    larger than the purse leaves a negative total (50 - 100 = -50), where
    [spendGold 100] in the same state refuses and leaves gold unchanged. *)
Theorem addGold_negative_total :
  gold (exec (addGold (-100)) INITIAL_STATE) = -50
  ∧ spendGold 100 INITIAL_STATE = (false, INITIAL_STATE).
Proof. split; reflexivity. Qed.

(** ** Crystals and story progression *)

Lemma restoreCrystal_unfold (c : string) (s : GameState) :
  exec (restoreCrystal c) s
  = if bool_decide (c ∈ crystalsRestored s) then s
    else if (length (crystalsRestored s ++ [c]) =? 1)%nat && (currentAct s =? 1)
    then set_storyPhase exploration (set_currentAct 2 (push_crystal c s))
    else if (length (crystalsRestored s ++ [c]) =? 5)%nat
    then set_storyPhase finale (set_currentAct 3 (push_crystal c s))
    else push_crystal c s.
Proof.
  unfold restoreCrystal. eng_unfold.
  destruct (bool_decide (c ∈ crystalsRestored s)); simpl; [reflexivity |].
  destruct ((length (crystalsRestored s ++ [c]) =? 1)%nat && (currentAct s =? 1));
    simpl; [reflexivity |].
  destruct (length (crystalsRestored s ++ [c]) =? 5)%nat; reflexivity.
Qed.

Lemma restoreCrystal_present (c : string) (s : GameState) :
  c ∈ crystalsRestored s → restoreCrystal c s = (tt, s).
Proof.
  intros Hin. unfold restoreCrystal. eng_unfold.
  rewrite bool_decide_eq_true_2 by assumption. reflexivity.
Qed.

Lemma restoreAll_distinct (l : list string) :
  NoDup l →
  let s := restoreAll l INITIAL_STATE in
  crystalsRestored s = l
  ∧ currentAct s = act_after (length l)
  ∧ storyPhase s = phase_after (length l).
Proof.
  induction l as [| c l IH] using rev_ind; intros Hnd.
  - simpl. auto.
  - apply NoDup_app in Hnd as (Hl & Hnot & _).
    specialize (IH Hl). simpl in IH. destruct IH as (Hc & Ha & Hp).
    simpl. unfold restoreAll. rewrite foldl_snoc.
    fold (restoreAll l INITIAL_STATE).
    rewrite restoreCrystal_unfold, Hc.
    rewrite bool_decide_eq_false_2
      by (intros Hin; apply (Hnot c Hin); apply list_elem_of_singleton;
          reflexivity).
    rewrite Ha. rewrite !length_app. simpl.
    replace (length l + 1)%nat with (S (length l)) by lia.
    remember (restoreAll l INITIAL_STATE) as s eqn:Hs. clear Hs.
    remember (length l) as n eqn:Hn. clear Hn.
    destruct n as [| [| [| [| [| n]]]]]; simpl in *;
      rewrite ?Hc, ?Ha, ?Hp; auto.
Qed.

(** C5: on INITIAL_STATE, [restoreCrystal "Nature"] appends "Nature" and
    yields currentAct 2 and storyPhase exploration; restoring a crystal that
    is already restored leaves the whole state unchanged; and for every
    order [l] of the five crystals, after the first [k] of them the restored
    list is those [k] crystals, and currentAct 3 with storyPhase finale holds
    exactly when [k] is 5. *)
Theorem restoreCrystal_progression :
  exec (restoreCrystal "Nature") INITIAL_STATE
  = set_storyPhase exploration
      (set_currentAct 2 (set_crystalsRestored ["Nature"] INITIAL_STATE))
  ∧ (∀ (s : GameState) (c : string),
       c ∈ crystalsRestored s → exec (restoreCrystal c) s = s)
  ∧ (∀ (l : list string) (k : nat),
       l ≡ₚ CRYSTALS → (k ≤ 5)%nat →
       let s := restoreAll (take k l) INITIAL_STATE in
       crystalsRestored s = take k l
       ∧ length (crystalsRestored s) = k
       ∧ (currentAct s = 3 ∧ storyPhase s = finale ↔ k = 5%nat)).
Proof.
  split; [reflexivity |]. split.
  - intros s c Hin. unfold exec. rewrite restoreCrystal_present; auto.
  - intros l k Hperm Hk.
    assert (Hnd : NoDup l).
    { rewrite Hperm. unfold CRYSTALS. apply (bool_decide_unpack _). vm_compute. exact I. }
    assert (Hlen : length l = 5%nat) by (rewrite Hperm; reflexivity).
    assert (Hnk : NoDup (take k l)).
    { rewrite <- (take_drop k l) in Hnd. apply NoDup_app in Hnd. tauto. }
    destruct (restoreAll_distinct (take k l) Hnk) as (Hc & Ha & Hp).
    assert (Hlk : length (take k l) = k) by (rewrite length_take; lia).
    simpl. rewrite Hc, Ha, Hp, Hlk.
    split; [reflexivity | split; [reflexivity |]].
    destruct k as [| [| [| [| [| [| k]]]]]]; simpl; try lia;
      (split; [intros [H1 H2]; try discriminate; try lia | intros H; try lia; auto]).
Qed.

Lemma restoreCrystal_progression_witness :
  let l := ["Fire"; "Earth"; "Nature"; "Air"; "Water"] in
  l ≡ₚ CRYSTALS
  ∧ crystalsRestored (restoreAll (take 5 l) INITIAL_STATE) = l
  ∧ (currentAct (restoreAll (take 5 l) INITIAL_STATE) = 3
     ∧ storyPhase (restoreAll (take 5 l) INITIAL_STATE) = finale)
  ∧ ¬ (currentAct (restoreAll (take 4 l) INITIAL_STATE) = 3
       ∧ storyPhase (restoreAll (take 4 l) INITIAL_STATE) = finale).
Proof.
  intros l.
  assert (Hperm : l ≡ₚ CRYSTALS) by (apply (bool_decide_unpack _); vm_compute; exact I).
  destruct restoreCrystal_progression as (_ & _ & Hall).
  destruct (Hall l 5%nat Hperm) as (Hc & _ & H5); [lia |].
  destruct (Hall l 4%nat Hperm) as (_ & _ & H4); [lia |].
  split; [exact Hperm |]. split; [exact Hc |].
  split; [apply H5; reflexivity | intros H; apply H4 in H; lia].
Defined.

(** ** Sequences of engine operations *)

Lemma reachable_run (ops : list Op) : reachable (run ops INITIAL_STATE).
Proof.
  induction ops as [| op ops IH] using rev_ind.
  - apply reach_init.
  - unfold run. rewrite foldl_snoc. apply reach_step; [exact IH | exact I].
Qed.

Lemma reachable_by_ind_inv (ok : GameState → Op → Prop) (P : GameState → Prop) :
  P INITIAL_STATE →
  (∀ s op, P s → ok s op → P (step op s)) →
  ∀ s, reachable_by ok s → P s.
Proof. intros H0 Hstep s Hr. induction Hr; eauto. Qed.

(** ** Unfolding the remaining methods *)

Lemma takeDamage_exec (amount : Z) (s : GameState) :
  exec (takeDamage amount) s = set_health (Z.max 0 (health s - amount)) s.
Proof. reflexivity. Qed.

Lemma removeItem_unfold (itemId : string) (s : GameState) :
  removeItem itemId s
  = match list_find (has_id itemId) (inventory s) with
    | None => (None, s)
    | Some (index, item) =>
        (Some item, set_inventory (delete index (inventory s)) s)
    end.
Proof.
  unfold removeItem. eng_unfold.
  destruct (list_find (has_id itemId) (inventory s)) as [[index item] |];
    reflexivity.
Qed.

Lemma useItem_unfold (itemId : string) (s : GameState) :
  useItem itemId s
  = match list_find (has_id itemId) (inventory s) with
    | None => (mkUseResult false "Item not found" None, s)
    | Some (index, item) =>
        if usable item
        then
          let h := default 0 (effect_health item) in
          let healed := Z.min (maxHealth s) (health s + h) - health s in
          (mkUseResult true (used_message item healed) (Some healed),
           set_inventory (delete index (inventory s))
             (set_health (Z.min (maxHealth s) (health s + h)) s))
        else (mkUseResult false "Cannot use this item now" None, s)
    end.
Proof.
  unfold useItem. eng_unfold.
  destruct (list_find (has_id itemId) (inventory s)) as [[index item] |] eqn:E;
    [| reflexivity].
  unfold usable.
  destruct (bool_decide (Item.type item = potion) && truthy (effect_health item));
    [| reflexivity].
  simpl. unfold removeItem. eng_unfold. rewrite E. reflexivity.
Qed.

Lemma completeQuest_unfold (questId : string) (s : GameState) :
  exec (completeQuest questId) s
  = match list_find (quest_has_id questId) (activeQuests s) with
    | Some (index, quest) =>
        set_activeQuests
          (filter (λ q, Quest.id q ≠ questId)
                  (<[index := mark_completed quest]> (activeQuests s)))
          (set_completedQuests (completedQuests s ++ [questId]) s)
    | None => s
    end.
Proof.
  unfold completeQuest. eng_unfold.
  destruct (list_find (quest_has_id questId) (activeQuests s)) as [[index q] |];
    reflexivity.
Qed.

Lemma addQuest_unfold (quest : Quest.t) (s : GameState) :
  exec (addQuest quest) s
  = match list_find (quest_has_id (Quest.id quest)) (activeQuests s) with
    | None => set_activeQuests (activeQuests s ++ [quest]) s
    | Some _ => s
    end.
Proof.
  unfold addQuest. eng_unfold.
  destruct (list_find (quest_has_id (Quest.id quest)) (activeQuests s));
    reflexivity.
Qed.

(** Every method but [addGold] keeps gold from going negative. *)
Lemma gold_nonneg_reachable (s : GameState) :
  reachable_by gold_safe s → 0 ≤ gold s.
Proof.
  revert s. apply reachable_by_ind_inv; [simpl; lia |].
  intros s op Hg Hok. destruct op; unfold step, gold_safe in *.
  - unfold exec, setState, modify, merge. simpl. rewrite Hok. exact Hg.
  - exact Hg.
  - exact Hg.
  - exact Hg.
  - unfold exec. rewrite removeItem_unfold.
    destruct (list_find _ _) as [[? ?] |]; exact Hg.
  - unfold exec. rewrite useItem_unfold.
    destruct (list_find _ _) as [[? i] |]; [| exact Hg].
    destruct (usable i); exact Hg.
  - exact Hok.
  - apply spendGold_nonneg. exact Hg.
  - unfold exec. rewrite gainExperience_unfold.
    destruct (experience s + amount >=? level s * 100); exact Hg.
  - rewrite completeQuest_unfold.
    destruct (list_find _ _) as [[? ?] |]; exact Hg.
  - rewrite addQuest_unfold.
    destruct (list_find _ _) as [[? ?] |]; exact Hg.
  - rewrite restoreCrystal_unfold.
    repeat match goal with |- context [if ?b then _ else _] => destruct b end;
      exact Hg.
Qed.

(** ** Quests: active and completed ids *)

Lemma step_quests_frame (op : Op) (s : GameState) :
  match op with
  | OpCompleteQuest _ | OpAddQuest _ => True
  | OpSetState p =>
      p_activeQuests p = None → p_completedQuests p = None →
      activeQuests (step op s) = activeQuests s
      ∧ completedQuests (step op s) = completedQuests s
  | _ => activeQuests (step op s) = activeQuests s
         ∧ completedQuests (step op s) = completedQuests s
  end.
Proof.
  destruct op; simpl; auto.
  - intros Ha Hc. unfold exec, setState, modify, merge. simpl.
    rewrite Ha, Hc. auto.
  - unfold exec. rewrite removeItem_unfold.
    destruct (list_find _ _) as [[? ?] |]; auto.
  - unfold exec. rewrite useItem_unfold.
    destruct (list_find _ _) as [[? i] |]; auto.
    destruct (usable i); auto.
  - unfold exec. rewrite spendGold_unfold.
    destruct (gold s >=? amount); auto.
  - unfold exec. rewrite gainExperience_unfold.
    destruct (experience s + amount >=? level s * 100); auto.
  - rewrite restoreCrystal_unfold.
    repeat match goal with |- context [if ?b then _ else _] => destruct b end;
      auto.
Qed.

Lemma completeQuest_disjoint (questId : string) (s : GameState) :
  quests_disjoint s → quests_disjoint (exec (completeQuest questId) s).
Proof.
  intros Hd. rewrite completeQuest_unfold.
  destruct (list_find (quest_has_id questId) (activeQuests s))
    as [[index quest] |] eqn:E; [| exact Hd].
  apply list_find_Some in E as (Hlook & Hid & _).
  intros q Hq. unfold active_ids in Hq. simpl in Hq.
  apply list_elem_of_fmap in Hq as (y & -> & Hy).
  apply list_elem_of_filter in Hy as (Hne & Hy).
  simpl. intros Hin. apply elem_of_app in Hin as [Hin | Hin].
  - apply list_elem_of_lookup in Hy as (j & Hj).
    destruct (decide (j = index)) as [-> | Hji].
    + rewrite list_lookup_insert_eq in Hj by (eapply lookup_lt_Some; eauto).
      injection Hj as <-. simpl in Hne. unfold quest_has_id in Hid. congruence.
    + rewrite list_lookup_insert_ne in Hj by congruence.
      apply (Hd (Quest.id y)); [| exact Hin].
      unfold active_ids. apply list_elem_of_fmap. exists y. split; [reflexivity |].
      eapply list_elem_of_lookup_2; eauto.
  - apply list_elem_of_singleton in Hin. congruence.
Qed.

Lemma addQuest_disjoint (quest : Quest.t) (s : GameState) :
  Quest.id quest ∉ completedQuests s →
  quests_disjoint s → quests_disjoint (exec (addQuest quest) s).
Proof.
  intros Hnew Hd. rewrite addQuest_unfold.
  destruct (list_find _ _) as [[? ?] |]; [exact Hd |].
  intros q Hq. unfold active_ids in Hq. simpl in *.
  rewrite fmap_app in Hq. apply elem_of_app in Hq as [Hq | Hq].
  - apply Hd. exact Hq.
  - simpl in Hq. apply list_elem_of_singleton in Hq. subst q. exact Hnew.
Qed.




(** ** Health bounds *)

Lemma health_inv_step (s : GameState) (op : Op) :
  health_inv s → health_safe s op → health_inv (step op s).
Proof.
  intros [Hb Hinv] Hok. unfold health_inv, health_bounded in *.
  destruct op; unfold step, health_safe in *.
  - destruct Hok as (H1 & H2 & H3). unfold exec, setState, modify, merge; simpl.
    rewrite H1, H2, H3. simpl. auto.
  - rewrite takeDamage_exec. simpl. split; [lia | exact Hinv].
  - unfold exec. rewrite heal_unfold. simpl. split; [lia | exact Hinv].
  - unfold exec, addItem, modify. simpl. split; [exact Hb |].
    apply Forall_app. split; [exact Hinv | apply Forall_singleton; exact Hok].
  - unfold exec. rewrite removeItem_unfold.
    destruct (list_find _ _) as [[index item] |]; simpl; [| auto].
    split; [exact Hb | apply Forall_delete; exact Hinv].
  - unfold exec. rewrite useItem_unfold.
    destruct (list_find _ _) as [[index item] |] eqn:E; simpl; [| auto].
    destruct (usable item) eqn:U; simpl; [| auto].
    apply list_find_Some in E as (Hlook & _ & _).
    assert (Hitem : potion_nonneg item).
    { rewrite Forall_forall in Hinv. apply Hinv.
      eapply list_elem_of_lookup_2; eauto. }
    unfold usable in U. apply andb_prop in U as [Ut Uh].
    apply bool_decide_eq_true in Ut.
    assert (0 ≤ default 0 (effect_health item)).
    { destruct (effect_health item) as [h |] eqn:Eh; simpl; [| lia].
      apply (Hitem Ut h). exact Eh. }
    split; [lia | apply Forall_delete; exact Hinv].
  - unfold exec, addGold, modify. simpl. auto.
  - unfold exec. rewrite spendGold_unfold.
    destruct (gold s >=? amount); simpl; auto.
  - unfold exec. rewrite gainExperience_unfold.
    destruct (experience s + amount >=? level s * 100); simpl; [| auto].
    split; [lia | exact Hinv].
  - rewrite completeQuest_unfold.
    destruct (list_find _ _) as [[index quest] |]; simpl; auto.
  - rewrite addQuest_unfold.
    destruct (list_find _ _) as [[index q] |]; simpl; auto.
  - rewrite restoreCrystal_unfold.
    repeat match goal with |- context [if ?b then _ else _] => destruct b end;
      simpl; auto.
Qed.

(** C4 (as the code has it): in every state reached from INITIAL_STATE by
    engine operations in which the amounts given to [takeDamage] and [heal]
    are not negative, no potion with a negative health effect is added, and
    [setState] does not set health, maxHealth or inventory, for all ids given
    to [useItem] and all integer amounts given to [gainExperience],
    0 <= health <= maxHealth holds: [takeDamage] clamps at 0 and [heal]
    clamps at maxHealth. *)
Theorem health_bounded_reachable (s : GameState) :
  reachable_by health_safe s → health_bounded s.
Proof.
  intros Hr. cut (health_inv s); [intros [H _]; exact H |].
  revert s Hr. apply reachable_by_ind_inv.
  - split; [unfold health_bounded; simpl; lia |].
    repeat constructor; intros Ht h Hh; simpl in *;
      try discriminate; injection Hh as <-; lia.
  - intros s op Hinv Hok. apply health_inv_step; assumption.
Qed.

Lemma health_bounded_reachable_witness :
  health_bounded
    (step (OpUseItem "health-potion")
       (step (OpTakeDamage 250) (step (OpHeal 40) INITIAL_STATE))).
Proof.
  apply health_bounded_reachable.
  repeat (apply reach_step; [| simpl; try lia; try exact I]).
  apply reach_init.
Defined.

(** C4 as stated fails for negative amounts: [takeDamage] only clamps at 0
    and [heal] only clamps at maxHealth, so [takeDamage (-50)] raises health
    to 150 above maxHealth 100, and [heal (-200)] lowers it to -100. *)
Lemma negative_amount_escapes_bounds :
  let s1 := run [OpTakeDamage (-50)] INITIAL_STATE in
  let s2 := run [OpHeal (-200)] INITIAL_STATE in
  reachable s1 ∧ health s1 = 150 ∧ maxHealth s1 = 100 ∧ ¬ health_bounded s1
  ∧ reachable s2 ∧ health s2 = -100 ∧ ¬ health_bounded s2.
Proof.
  intros s1 s2.
  split; [apply reachable_run |]. split; [reflexivity |].
  split; [reflexivity |].
  split; [unfold health_bounded; simpl; lia |].
  split; [apply reachable_run |]. split; [reflexivity |].
  unfold health_bounded; simpl; lia.
Qed.

(** ** Using an item *)

Lemma list_find_first_with_id itemId l index item :
  list_find (has_id itemId) l = Some (index, item)
  ↔ first_with_id itemId l index item.
Proof. unfold first_with_id. rewrite list_find_Some. reflexivity. Qed.

Lemma list_find_no_item itemId l :
  list_find (has_id itemId) l = None ↔ no_item_with_id itemId l.
Proof.
  unfold no_item_with_id. rewrite list_find_None, Forall_forall. reflexivity.
Qed.

Lemma usable_healing_potion (item : Item.t) :
  usable item = true ↔ ∃ h, healing_potion item h.
Proof.
  unfold usable, healing_potion, truthy.
  rewrite andb_true_iff, bool_decide_eq_true. split.
  - intros [Ht Hh]. destruct (effect_health item) as [h |]; [| discriminate].
    exists h. apply negb_true_iff, Z.eqb_neq in Hh. auto.
  - intros (h & Ht & -> & Hne). split; [exact Ht |].
    apply negb_true_iff, Z.eqb_neq. exact Hne.
Qed.

Lemma useItem_heals (s : GameState) (itemId : string)
    (index : nat) (item : Item.t) (h : Z) :
  first_with_id itemId (inventory s) index item → healing_potion item h →
  useItem itemId s
  = (mkUseResult true
       (used_message item (Z.min (maxHealth s) (health s + h) - health s))
       (Some (Z.min (maxHealth s) (health s + h) - health s)),
     set_inventory (delete index (inventory s))
       (set_health (Z.min (maxHealth s) (health s + h)) s)).
Proof.
  intros Hfirst Hpot. apply list_find_first_with_id in Hfirst.
  rewrite useItem_unfold, Hfirst.
  assert (Hu : usable item = true)
    by (apply usable_healing_potion; exists h; exact Hpot).
  destruct Hpot as (_ & Hh & _). rewrite Hu, Hh. reflexivity.
Qed.

Lemma useItem_absent (s : GameState) (itemId : string) :
  no_item_with_id itemId (inventory s) → useItem itemId s = (not_found, s).
Proof.
  intros Hnone. apply list_find_no_item in Hnone.
  rewrite useItem_unfold, Hnone. reflexivity.
Qed.

Lemma useItem_cannot (s : GameState) (itemId : string)
    (index : nat) (item : Item.t) :
  first_with_id itemId (inventory s) index item →
  ¬ (∃ h, healing_potion item h) →
  useItem itemId s = (cannot_use, s).
Proof.
  intros Hfirst Hnot. apply list_find_first_with_id in Hfirst.
  rewrite useItem_unfold, Hfirst.
  destruct (usable item) eqn:Hu; [| reflexivity].
  apply usable_healing_potion in Hu. contradiction.
Qed.

(** C7 (as the code has it): [useItem] looks at the first inventory item
    that carries the id.  If that item is a potion with a health effect
    that is not zero, [useItem] heals by that amount, removes that item and
    reports success with the amount actually healed,
    min(effect, maxHealth - health): when health already equals maxHealth
    that is 0 for a positive effect, the potion being removed all the same,
    and the effect itself for a negative one.  If no item carries the id it
    reports failure ('Item not found'), and if the first item with the id
    is anything else it reports failure ('Cannot use this item now'); both
    leave the state unchanged. *)
Theorem useItem_first_match (s : GameState) (itemId : string) :
  (∀ index item h,
     first_with_id itemId (inventory s) index item → healing_potion item h →
     let healed := Z.min (maxHealth s) (health s + h) - health s in
     useItem itemId s
     = (mkUseResult true (used_message item healed) (Some healed),
        set_inventory (delete index (inventory s))
          (set_health (Z.min (maxHealth s) (health s + h)) s))
     ∧ healed = Z.min h (maxHealth s - health s)
     ∧ (health s = maxHealth s → 0 ≤ h → healed = 0)
     ∧ (health s = maxHealth s → h < 0 → healed = h))
  ∧ (no_item_with_id itemId (inventory s) → useItem itemId s = (not_found, s))
  ∧ (∀ index item,
       first_with_id itemId (inventory s) index item →
       ¬ (∃ h, healing_potion item h) →
       useItem itemId s = (cannot_use, s))
  ∧ useItem "health-potion" INITIAL_STATE
    = (mkUseResult true "Used Health Potion. Restored 0 HP!" (Some 0),
       set_inventory (take 1 (inventory INITIAL_STATE)) INITIAL_STATE).
Proof.
  split; [| split; [| split]].
  - intros index item h Hfirst Hpot healed.
    split; [apply useItem_heals; assumption |].
    unfold healed. repeat split; lia.
  - apply useItem_absent.
  - apply useItem_cannot.
  - vm_compute. reflexivity.
Qed.

Lemma useItem_first_match_witness :
  let s := set_health 90 INITIAL_STATE in
  let poison := Item.mk "poison" "Nightshade" potion 3 "Drains 5 HP"
                        (Some (Effect.mk (Some (-5)) None None)) in
  let s' := exec (addItem poison) INITIAL_STATE in
  useItem "health-potion" s
  = (mkUseResult true "Used Health Potion. Restored 10 HP!" (Some 10),
     set_inventory (take 1 (inventory s)) (set_health 100 s))
  ∧ Z.min (maxHealth INITIAL_STATE) (health INITIAL_STATE + 30)
    - health INITIAL_STATE = 0
  ∧ useItem "poison" s'
    = (mkUseResult true "Used Nightshade. Restored -5 HP!" (Some (-5)),
       set_health 95 INITIAL_STATE)
  ∧ Z.min (maxHealth s') (health s' + -5) - health s' = -5
  ∧ useItem "starter-sword" s = (cannot_use, s)
  ∧ useItem "torch" s = (not_found, s).
Proof.
  intros s poison s'.
  destruct (useItem_first_match s "health-potion") as (Hheal & _ & _ & _).
  destruct (useItem_first_match INITIAL_STATE "health-potion")
    as (Hfull & _ & _ & _).
  destruct (useItem_first_match s' "poison") as (Hdrain & _ & _ & _).
  destruct (useItem_first_match s "starter-sword") as (_ & _ & Hcannot & _).
  destruct (useItem_first_match s "torch") as (_ & Hnone & _ & _).
  split; [| split; [| split; [| split; [| split]]]].
  - edestruct (Hheal 1%nat) as [Heq _].
    + apply list_find_first_with_id. vm_compute. reflexivity.
    + split; [reflexivity | split; [reflexivity | discriminate]].
    + rewrite Heq. vm_compute. reflexivity.
  - edestruct (Hfull 1%nat) as (_ & _ & Hzero & _).
    + apply list_find_first_with_id. vm_compute. reflexivity.
    + split; [reflexivity | split; [reflexivity | discriminate]].
    + apply Hzero; [reflexivity | lia].
  - destruct (Hdrain 2%nat poison (-5)) as [Heq _].
    + apply list_find_first_with_id. vm_compute. reflexivity.
    + split; [reflexivity | split; [reflexivity | discriminate]].
    + rewrite Heq. vm_compute. reflexivity.
  - destruct (Hdrain 2%nat poison (-5)) as (_ & _ & _ & Hneg).
    + apply list_find_first_with_id. vm_compute. reflexivity.
    + split; [reflexivity | split; [reflexivity | discriminate]].
    + apply Hneg; [reflexivity | lia].
  - eapply (Hcannot 0%nat).
    + apply list_find_first_with_id. vm_compute. reflexivity.
    + intros (h & Ht & _). discriminate Ht.
  - apply Hnone. apply list_find_no_item. vm_compute. reflexivity.
Defined.

(** C7 as stated fails: what the inventory holds under the id is not
    enough.  With two items under one id only the first is looked at, so a
    potion behind the sword is not used; and a potion whose health effect
    is 0 is refused. *)
Lemma useItem_refuses_potion :
  let p := Item.mk "starter-sword" "Elixir" potion 5 "Restores 20 HP"
                   (Some (Effect.mk (Some 20) None None)) in
  let s := run [OpTakeDamage 40; OpAddItem p] INITIAL_STATE in
  let z := Item.mk "water" "Spring Water" potion 1 "Plain water"
                   (Some (Effect.mk (Some 0) None None)) in
  let s0 := run [OpAddItem z] INITIAL_STATE in
  (reachable s ∧ p ∈ inventory s ∧ Item.id p = "starter-sword"
   ∧ Item.type p = potion ∧ effect_health p = Some 20
   ∧ useItem "starter-sword" s = (cannot_use, s))
  ∧ (reachable s0 ∧ z ∈ inventory s0 ∧ Item.id z = "water"
     ∧ Item.type z = potion ∧ effect_health z = Some 0
     ∧ useItem "water" s0 = (cannot_use, s0)).
Proof.
  intros p s z s0. split.
  - split; [apply reachable_run |].
    split; [apply list_elem_of_lookup; exists 2%nat; reflexivity |].
    repeat split; vm_compute; reflexivity.
  - split; [apply reachable_run |].
    split; [apply list_elem_of_lookup; exists 2%nat; reflexivity |].
    repeat split; vm_compute; reflexivity.
Qed.

(** C10 (as the code has it): if the first inventory item carrying the id
    is a potion whose effect record is present with a health field equal to
    0, [useItem] reports failure with 'Cannot use this item now' and leaves
    the state unchanged, the item staying in the inventory; this is what it
    does for a potion whose effect record has no health field. *)
Theorem useItem_zero_health (s : GameState) (itemId : string)
    (index : nat) (item : Item.t) (e : Effect.t) :
  first_with_id itemId (inventory s) index item →
  Item.type item = potion →
  Item.effect item = Some e →
  Effect.health e = Some 0 ∨ Effect.health e = None →
  useItem itemId s = (cannot_use, s)
  ∧ inventory (exec (useItem itemId) s) !! index = Some item.
Proof.
  intros Hfirst Ht He Hz.
  assert (Hres : useItem itemId s = (cannot_use, s)).
  { apply (useItem_cannot s itemId index item Hfirst).
    intros (h & _ & Hh & Hne). unfold effect_health in Hh.
    rewrite He in Hh. simpl in Hh. destruct Hz; congruence. }
  split; [exact Hres |]. unfold exec. rewrite Hres. simpl. apply Hfirst.
Qed.

Lemma useItem_zero_health_witness :
  let z := Item.mk "water" "Spring Water" potion 1 "Plain water"
                   (Some (Effect.mk (Some 0) None None)) in
  let s := exec (addItem z) INITIAL_STATE in
  useItem "water" s = (cannot_use, s) ∧ inventory s !! 2%nat = Some z.
Proof.
  intros z s.
  destruct (useItem_zero_health s "water" 2 z (Effect.mk (Some 0) None None))
    as [Hres Hkept].
  - apply list_find_first_with_id. vm_compute. reflexivity.
  - reflexivity.
  - reflexivity.
  - left. reflexivity.
  - split; [exact Hres | reflexivity].
Defined.

(** C10 as stated fails when an earlier item carries the same id: the
    zero-effect potion is in the inventory, but [useItem] on its id finds
    the potion before it, heals with that one and removes it. *)
Lemma useItem_zero_health_shadowed :
  let good := Item.mk "tonic" "Tonic" potion 8 "Restores 30 HP"
                      (Some (Effect.mk (Some 30) None None)) in
  let zero := Item.mk "tonic" "Flat Tonic" potion 1 "Restores nothing"
                      (Some (Effect.mk (Some 0) None None)) in
  let s := run [OpTakeDamage 50; OpAddItem good; OpAddItem zero]
               INITIAL_STATE in
  reachable s ∧ zero ∈ inventory s
  ∧ Item.type zero = potion
  ∧ (Item.effect zero ≫= Effect.health) = Some 0
  ∧ eval (useItem (Item.id zero)) s
    = mkUseResult true "Used Tonic. Restored 30 HP!" (Some 30)
  ∧ exec (useItem (Item.id zero)) s ≠ s.
Proof.
  intros good zero s.
  split; [apply reachable_run |].
  split; [apply list_elem_of_lookup; exists 3%nat; reflexivity |].
  split; [reflexivity |]. split; [reflexivity |].
  split; [vm_compute; reflexivity |].
  intros Heq. apply (f_equal health) in Heq. vm_compute in Heq. discriminate.
Qed.

(** ** Command parsing *)

Lemma split_space_nonempty (s : string) : split_space s ≠ [].
Proof.
  destruct s as [| c s]; simpl; [discriminate |].
  destruct (Ascii.eqb c " "); [discriminate |].
  destruct (split_space s); discriminate.
Qed.

(** [s.split(' ').join(' ')] gives [s] back. *)
Lemma join_split_space (s : string) : String.concat " " (split_space s) = s.
Proof.
  induction s as [| c s IH]; [reflexivity |].
  simpl. destruct (Ascii.eqb c " ") eqn:E.
  - apply Ascii.eqb_eq in E. subst c.
    pose proof (split_space_nonempty s) as Hne.
    change (String.concat " " (EmptyString :: split_space s))
      with (match split_space s with
            | [] => EmptyString
            | _ => (EmptyString ++ " " ++ String.concat " " (split_space s))%string
            end).
    destruct (split_space s) eqn:Es; [contradiction |].
    rewrite IH. reflexivity.
  - destruct (split_space s) as [| w ws] eqn:Es.
    + exfalso. exact (split_space_nonempty s Es).
    + rewrite <- IH. destruct ws; reflexivity.
Qed.

Lemma split_space_first_word (w rest : string) :
  has_space w = false →
  split_space (w +:+ " " +:+ rest) = w :: split_space rest.
Proof.
  induction w as [| c w IH]; intros Hw; [reflexivity |].
  simpl in Hw. apply orb_false_iff in Hw as [Hc Hw].
  simpl. rewrite Hc. rewrite (IH Hw). reflexivity.
Qed.

Lemma extractTarget_first_word (w rest : string) :
  has_space w = false → rest ≠ EmptyString →
  extractTarget (w +:+ " " +:+ rest) = rest.
Proof.
  intros Hw Hrest. unfold extractTarget.
  rewrite split_space_first_word by exact Hw. simpl.
  rewrite join_split_space.
  destruct (String.eqb rest "") eqn:E; [| reflexivity].
  apply String.eqb_eq in E. contradiction.
Qed.

Lemma parseCommand_action_cases (command : string) :
  action (parseCommand command) ∈ ACTIONS.
Proof.
  unfold parseCommand, ACTIONS.
  repeat match goal with
         | |- context [includes ?k ?l] => destruct (includes k l)
         end; simpl; repeat constructor.
Qed.

Lemma parseCommand_fallback (command : string) :
  (∀ kw, kw ∈ KEYWORDS → includes kw (lowered command) = false) →
  parseCommand command = mkParsed "explore" None None.
Proof.
  intros Hno. unfold parseCommand. fold (lowered command).
  rewrite !Hno by (unfold KEYWORDS; repeat constructor). reflexivity.
Qed.

Lemma parseCommand_explore_only_fallback (command : string) :
  action (parseCommand command) = "explore" →
  ∀ kw, kw ∈ KEYWORDS → includes kw (lowered command) = false.
Proof.
  unfold parseCommand. fold (lowered command). intros Hact kw Hkw.
  unfold KEYWORDS in Hkw.
  repeat match type of Hact with
         | context [includes ?k (lowered command)] =>
             destruct (includes k (lowered command)) eqn:?; simpl in Hact;
             try discriminate Hact
         end.
  repeat (apply elem_of_cons in Hkw as [-> | Hkw]; [assumption |]).
  inversion Hkw.
Qed.

(** C9: [parseCommand] returns, for every input string, one of the action
    tags attack, defend, unlock, pickup, use, inventory, explore, and the
    tag is explore exactly when no keyword occurs in the lowered, trimmed
    command.  [parseCommand "take the rusty sword"] is a pickup whose
    extracted target is "the rusty sword": the target is the command with
    its first word dropped and the remaining words rejoined. *)
Theorem parseCommand_total :
  (∀ command, action (parseCommand command) ∈ ACTIONS)
  ∧ (∀ command,
       (∀ kw, kw ∈ KEYWORDS → includes kw (lowered command) = false)
       ↔ action (parseCommand command) = "explore")
  ∧ parseCommand "take the rusty sword"
    = mkParsed "pickup" None (Some "the rusty sword")
  ∧ (∀ w rest, has_space w = false → rest ≠ EmptyString →
       extractTarget (w +:+ " " +:+ rest) = rest).
Proof.
  split; [exact parseCommand_action_cases |].
  split; [| split; [vm_compute; reflexivity | exact extractTarget_first_word]].
  intros command. split.
  - intros Hno. rewrite parseCommand_fallback by exact Hno. reflexivity.
  - apply parseCommand_explore_only_fallback.
Qed.

Lemma parseCommand_total_witness :
  action (parseCommand "Look around") = "explore"
  ∧ extractTarget "take the rusty sword" = "the rusty sword".
Proof.
  destruct parseCommand_total as (_ & Hfall & _ & Hext).
  split.
  - apply Hfall. intros kw Hkw. unfold KEYWORDS in Hkw.
    repeat (apply elem_of_cons in Hkw as [-> | Hkw];
            [vm_compute; reflexivity |]).
    inversion Hkw.
  - apply (Hext "take" "the rusty sword"); [reflexivity | discriminate].
Defined.

(** ** The engine on the JavaScript heap *)

(** The constructor copies INITIAL_STATE one level deep as well: an item
    the engine adds lands in the inventory array of INITIAL_STATE (the
    state object at address 5). *)
Example constructor_shares_initial_arrays :
  fst <$> (Heap.addItem engine_this elixir;;
           Heap.read Heap.view_state 5%positive) engine_heap
  = Some (set_inventory (inventory INITIAL_STATE ++ [elixir]) INITIAL_STATE).
Proof. vm_compute. reflexivity. Qed.

Example heap_initial_view :
  fst <$> (this ← Heap.gameEngine; Heap.read Heap.view this) ∅
  = Some INITIAL_STATE.
Proof. vm_compute. reflexivity. Qed.

(** ** The heap engine against the engine on values *)

Ltac heap_unfold :=
  repeat progress unfold Heap.hstep, Heap.setState, Heap.new_partial, Heap.new_opt,
    Heap.takeDamage, Heap.heal, Heap.addItem, Heap.removeItem, Heap.useItem,
    Heap.addGold, Heap.spendGold, Heap.gainExperience, Heap.completeQuest,
    Heap.addQuest, Heap.restoreCrystal, Heap.getState, Heap.caller_assign,
    Heap.assign, Heap.this_state, Heap.read, Heap.write, Heap.new,
    Heap.get_engine, Heap.get_state, Heap.get_items, Heap.get_quests,
    Heap.get_strings, mbind, Heap.HM_bind, mret, Heap.HM_ret in *.

Lemma represents_view h this s : represents h this s → Heap.view h this = Some s.
Proof.
  intros (st & li & la & lc & lr & Ht & Hs & Hi & Ha & Hc & Hr & _).
  unfold Heap.view, Heap.view_state, Heap.get_engine, Heap.get_state,
    Heap.get_items, Heap.get_quests, Heap.get_strings.
  rewrite Ht. simpl. rewrite Hs. simpl. rewrite Hi, Ha, Hc, Hr. simpl.
  destruct s; reflexivity.
Qed.

(** Cells of different kinds, or two arrays known to differ, are at
    different addresses. *)
Ltac heap_distinct :=
  repeat match goal with
         | H1 : ?h !! ?l1 = Some _, H2 : ?h !! ?l2 = Some _ |- _ =>
             lazymatch goal with
             | _ : l1 ≠ l2 |- _ => fail
             | _ => assert (l1 ≠ l2) by congruence
             end
         end.

(** Run a method body on a heap whose cells are known. *)
Ltac heap_run :=
  repeat first
    [ progress simpl
    | rewrite lookup_insert_eq
    | rewrite lookup_insert_ne by assumption
    | match goal with
      | H : ?h !! ?l = Some _ |- context [?h !! ?l] => rewrite H
      end ].

Ltac rep_intro :=
  intros (st & li & la & lc & lr & Ht & Hs & Hi & Ha & Hc & Hr & Hne);
  assert (lr ≠ lc) by congruence;
  heap_distinct.

Ltac rep_exists st li la lc lr :=
  exists st, li, la, lc, lr; heap_run;
  repeat split; try reflexivity; try assumption.

Lemma hstep_takeDamage h this s a :
  represents h this s →
  ∃ h', Heap.hstep this (OpTakeDamage a) h = Some (result (OpTakeDamage a) s, h')
        ∧ represents h' this (step (OpTakeDamage a) s).
Proof.
  rep_intro. heap_unfold. heap_run.
  eexists. split; [reflexivity |]. rep_exists st li la lc lr.
Qed.

Lemma hstep_heal h this s a :
  represents h this s →
  ∃ h', Heap.hstep this (OpHeal a) h = Some (result (OpHeal a) s, h')
        ∧ represents h' this (step (OpHeal a) s).
Proof.
  rep_intro. heap_unfold. heap_run.
  eexists. split; [reflexivity |]. rep_exists st li la lc lr.
Qed.

Lemma hstep_addItem h this s i :
  represents h this s →
  ∃ h', Heap.hstep this (OpAddItem i) h = Some (result (OpAddItem i) s, h')
        ∧ represents h' this (step (OpAddItem i) s).
Proof.
  rep_intro. heap_unfold. heap_run.
  eexists. split; [reflexivity |]. rep_exists st li la lc lr.
Qed.

Lemma hstep_removeItem h this s i :
  represents h this s →
  ∃ h', Heap.hstep this (OpRemoveItem i) h = Some (result (OpRemoveItem i) s, h')
        ∧ represents h' this (step (OpRemoveItem i) s).
Proof.
  rep_intro. heap_unfold. heap_run.
  unfold exec, eval. rewrite removeItem_unfold.
  destruct (list_find (has_id i) (inventory s)) as [[index item] |];
    heap_run; (eexists; split; [reflexivity |]); rep_exists st li la lc lr.
Qed.

Lemma hstep_useItem h this s i :
  represents h this s →
  ∃ h', Heap.hstep this (OpUseItem i) h = Some (result (OpUseItem i) s, h')
        ∧ represents h' this (step (OpUseItem i) s).
Proof.
  rep_intro. heap_unfold. heap_run.
  unfold exec, eval. rewrite useItem_unfold. unfold usable.
  destruct (list_find (has_id i) (inventory s)) as [[index item] |] eqn:E;
    heap_run.
  - destruct (bool_decide (Item.type item = potion)
              && truthy (effect_health item)); heap_run.
    + rewrite E. heap_run.
      eexists. split; [reflexivity |]. rep_exists st li la lc lr.
    + eexists. split; [reflexivity |]. rep_exists st li la lc lr.
  - eexists. split; [reflexivity |]. rep_exists st li la lc lr.
Qed.

Lemma hstep_addGold h this s a :
  represents h this s →
  ∃ h', Heap.hstep this (OpAddGold a) h = Some (result (OpAddGold a) s, h')
        ∧ represents h' this (step (OpAddGold a) s).
Proof.
  rep_intro. heap_unfold. heap_run.
  eexists. split; [reflexivity |]. rep_exists st li la lc lr.
Qed.

Lemma hstep_spendGold h this s a :
  represents h this s →
  ∃ h', Heap.hstep this (OpSpendGold a) h = Some (result (OpSpendGold a) s, h')
        ∧ represents h' this (step (OpSpendGold a) s).
Proof.
  rep_intro. heap_unfold. heap_run.
  unfold exec, eval. rewrite spendGold_unfold.
  destruct (gold s >=? a); heap_run;
    (eexists; split; [reflexivity |]); rep_exists st li la lc lr.
Qed.

Lemma hstep_gainExperience h this s a :
  represents h this s →
  ∃ h', Heap.hstep this (OpGainExperience a) h = Some (result (OpGainExperience a) s, h')
        ∧ represents h' this (step (OpGainExperience a) s).
Proof.
  rep_intro. heap_unfold. heap_run.
  unfold exec, eval. rewrite gainExperience_unfold.
  destruct (experience s + a >=? level s * 100); heap_run;
    (eexists; split; [reflexivity |]); rep_exists st li la lc lr.
Qed.

Lemma hstep_addQuest h this s q :
  represents h this s →
  ∃ h', Heap.hstep this (OpAddQuest q) h = Some (result (OpAddQuest q) s, h')
        ∧ represents h' this (step (OpAddQuest q) s).
Proof.
  rep_intro. heap_unfold. heap_run.
  rewrite addQuest_unfold.
  destruct (list_find _ (activeQuests s)) as [[index quest] |]; heap_run;
    (eexists; split; [reflexivity |]); rep_exists st li la lc lr.
Qed.

Lemma hstep_restoreCrystal h this s c :
  represents h this s →
  ∃ h', Heap.hstep this (OpRestoreCrystal c) h = Some (result (OpRestoreCrystal c) s, h')
        ∧ represents h' this (step (OpRestoreCrystal c) s).
Proof.
  rep_intro. heap_unfold. heap_run.
  rewrite restoreCrystal_unfold.
  destruct (bool_decide (c ∈ crystalsRestored s)); heap_run.
  - eexists. split; [reflexivity |]. rep_exists st li la lc lr.
  - destruct ((length (crystalsRestored s ++ [c]) =? 1)%nat
              && (currentAct s =? 1)); heap_run.
    + eexists. split; [reflexivity |]. rep_exists st li la lc lr.
    + destruct (length (crystalsRestored s ++ [c]) =? 5)%nat; heap_run;
        (eexists; split; [reflexivity |]); rep_exists st li la lc lr.
Qed.

Lemma fresh_not_cell (h : gmap positive Heap.cell) (x : positive) :
  is_Some (h !! x) → fresh (dom h) ≠ x.
Proof.
  intros Hx Heq. apply (is_fresh (dom h)). rewrite Heq.
  apply elem_of_dom. exact Hx.
Qed.

(** Name the next allocated address, apart from every address in use. *)
Ltac fresh_step :=
  match goal with
  | |- context [fresh (dom ?H)] =>
      lazymatch H with context [fresh _] => fail | _ => idtac end;
      repeat match goal with
             | x : positive |- _ =>
                 lazymatch goal with
                 | _ : fresh (dom H) ≠ x |- _ => fail
                 | _ =>
                     assert (fresh (dom H) ≠ x)
                       by (apply fresh_not_cell; heap_run; eauto);
                     assert (x ≠ fresh (dom H)) by congruence
                 end
             end;
      let lf := fresh "lf" in
      set (lf := fresh (dom H)) in *; clearbody lf
  end.

Lemma hstep_completeQuest h this s q :
  represents h this s →
  ∃ h', Heap.hstep this (OpCompleteQuest q) h = Some (result (OpCompleteQuest q) s, h')
        ∧ represents h' this (step (OpCompleteQuest q) s).
Proof.
  rep_intro. heap_unfold. heap_run.
  rewrite completeQuest_unfold.
  destruct (list_find _ (activeQuests s)) as [[index quest] |]; heap_run.
  - fresh_step. heap_run.
    eexists. split; [reflexivity |]. rep_exists st li lf lc lr.
  - eexists. split; [reflexivity |]. rep_exists st li la lc lr.
Qed.

Lemma hstep_setState h this s p :
  represents h this s →
  ∃ h', Heap.hstep this (OpSetState p) h = Some (result (OpSetState p) s, h')
        ∧ represents h' this (step (OpSetState p) s).
Proof.
  rep_intro. heap_unfold. heap_run.
  destruct p as [ph pm pinv pg pl pe plv pa pr paq pcq pcr psp].
  unfold exec, setState, modify, merge. simpl.
  destruct pinv as [inv |], paq as [aq |], pcq as [cq |], pcr as [cr |];
    heap_run; repeat (fresh_step; heap_run);
    (eexists; split; [reflexivity |]).
  all: unfold represents; do 5 eexists;
    (split; [heap_run; reflexivity |]);
    (split; [heap_run; reflexivity |]);
    heap_run; repeat split; try reflexivity; try assumption.
Qed.

Lemma hstep_refines h this s op :
  represents h this s →
  ∃ h', Heap.hstep this op h = Some (result op s, h')
        ∧ represents h' this (step op s).
Proof.
  destruct op;
    eauto using hstep_setState, hstep_takeDamage, hstep_heal, hstep_addItem,
      hstep_removeItem, hstep_useItem, hstep_addGold, hstep_spendGold,
      hstep_gainExperience, hstep_completeQuest, hstep_addQuest,
      hstep_restoreCrystal.
Qed.

Lemma hrun_refines this ops :
  ∀ h s, represents h this s →
  ∃ h', Heap.hrun this ops h = Some (results ops s, h')
        ∧ represents h' this (run ops s).
Proof.
  induction ops as [| op ops IH]; intros h s Hrep.
  - exists h. split; [reflexivity | exact Hrep].
  - destruct (hstep_refines h this s op Hrep) as (h1 & Hstep & Hrep1).
    destruct (IH h1 (step op s) Hrep1) as (h2 & Hrun & Hrep2).
    exists h2. split; [| exact Hrep2].
    simpl. unfold mbind, Heap.HM_bind. rewrite Hstep, Hrun. reflexivity.
Qed.

Lemma fresh_lookup_None (h : gmap positive Heap.cell) : h !! fresh (dom h) = None.
Proof. apply not_elem_of_dom. apply is_fresh. Qed.

Lemma getState_copy h this s :
  represents h this s →
  ∃ r st o,
    Heap.getState this h = Some (r, <[r := Heap.CState o]> h)
    ∧ h !! r = None
    ∧ h !! this = Some (Heap.CEngine st)
    ∧ h !! st = Some (Heap.CState o)
    ∧ Heap.view_state (<[r := Heap.CState o]> h) r = Some s
    ∧ represents (<[r := Heap.CState o]> h) this s.
Proof.
  rep_intro. exists (fresh (dom h)), st, (obj_of s li la lc lr).
  pose proof (fresh_lookup_None h) as Hfresh.
  heap_unfold. heap_run. fresh_step.
  repeat split; try assumption.
  - unfold Heap.view_state, Heap.get_state, Heap.get_items, Heap.get_quests,
      Heap.get_strings. heap_run. destruct s; reflexivity.
  - rep_exists st li la lc lr.
Qed.

(** Whatever the caller assigns to the fields of a state object that is not
    the engine's own, the engine holds the same state. *)
Lemma caller_assign_frame h this s r o o' :
  represents h this s →
  h !! r = Some (Heap.CState o) →
  (∀ st, h !! this = Some (Heap.CEngine st) → r ≠ st) →
  Heap.caller_assign r o' h = Some (tt, <[r := Heap.CState o']> h)
  ∧ represents (<[r := Heap.CState o']> h) this s.
Proof.
  intros Hrep Hcell Hother. revert Hrep. rep_intro.
  pose proof (Hother st Ht) as Hrst.
  assert (st ≠ r) by congruence.
  heap_unfold. heap_run. split; [reflexivity |].
  rep_exists st li la lc lr.
Qed.

(** C2 (as the code has it): for every state of the engine, [getState]
    returns a new record with the engine's current field values, so
    whatever the caller assigns to the fields of the returned record, every
    later sequence of engine operations returns the same values and leaves
    the engine in the same state as without the assignment.  The copy is
    one level deep: the returned record holds the same references as the
    engine's state object, so its inventory, activeQuests, completedQuests
    and crystalsRestored are the engine's own arrays. *)
Theorem getState_shallow_copy (h : gmap positive Heap.cell) (this : positive)
    (s : GameState) :
  represents h this s →
  ∃ r h' st o,
    Heap.getState this h = Some (r, h')
    ∧ h !! r = None
    ∧ Heap.view_state h' r = Some s
    ∧ (h' !! this = Some (Heap.CEngine st)
       ∧ h' !! st = Some (Heap.CState o) ∧ h' !! r = Some (Heap.CState o))
    ∧ ∀ (o' : Heap.StateObj) (ops : list Op),
        ∃ h1 h2,
          (Heap.caller_assign r o';; Heap.hrun this ops) h'
          = Some (results ops s, h1)
          ∧ Heap.hrun this ops h' = Some (results ops s, h2)
          ∧ Heap.view h1 this = Some (run ops s)
          ∧ Heap.view h2 this = Some (run ops s).
Proof.
  intros Hrep.
  destruct (getState_copy h this s Hrep)
    as (r & st & o & Hget & Hnone & Ht & Hs & Hview & Hrep').
  assert (Hrt : r ≠ this) by congruence.
  assert (Hrs : r ≠ st) by congruence.
  exists r, (<[r := Heap.CState o]> h), st, o.
  split; [exact Hget |]. split; [exact Hnone |]. split; [exact Hview |].
  split.
  { rewrite !lookup_insert_ne by assumption. rewrite lookup_insert_eq. auto. }
  intros o' ops.
  destruct (caller_assign_frame _ this s r o o' Hrep') as [Hassign Hrep1].
  { apply lookup_insert_eq. }
  { intros st' Hst'. rewrite lookup_insert_ne in Hst' by assumption.
    congruence. }
  destruct (hrun_refines this ops _ s Hrep1) as (h1 & Hrun1 & Hfin1).
  destruct (hrun_refines this ops _ s Hrep') as (h2 & Hrun2 & Hfin2).
  exists h1, h2.
  split.
  { unfold mbind, Heap.HM_bind. rewrite Hassign. exact Hrun1. }
  split; [exact Hrun2 |].
  split; apply represents_view; assumption.
Qed.

Lemma engine_heap_represents :
  represents engine_heap engine_this INITIAL_STATE.
Proof.
  exists 6%positive, 1%positive, 2%positive, 3%positive, 4%positive.
  repeat split; try (vm_compute; reflexivity). discriminate.
Qed.

Lemma getState_shallow_copy_witness :
  ∃ r h' st o,
    Heap.getState engine_this engine_heap = Some (r, h')
    ∧ engine_heap !! r = None
    ∧ Heap.view_state h' r = Some INITIAL_STATE
    ∧ (h' !! engine_this = Some (Heap.CEngine st)
       ∧ h' !! st = Some (Heap.CState o) ∧ h' !! r = Some (Heap.CState o))
    ∧ ∀ (o' : Heap.StateObj) (ops : list Op),
        ∃ h1 h2,
          (Heap.caller_assign r o';; Heap.hrun engine_this ops) h'
          = Some (results ops INITIAL_STATE, h1)
          ∧ Heap.hrun engine_this ops h' = Some (results ops INITIAL_STATE, h2)
          ∧ Heap.view h1 engine_this = Some (run ops INITIAL_STATE)
          ∧ Heap.view h2 engine_this = Some (run ops INITIAL_STATE).
Proof.
  apply (getState_shallow_copy engine_heap engine_this INITIAL_STATE).
  exists 6%positive, 1%positive, 2%positive, 3%positive, 4%positive.
  repeat split; try (vm_compute; reflexivity). discriminate.
Defined.

(** C2 as stated fails: the arrays of the record returned by [getState] are
    the engine's own.  After the caller pushes an item and a crystal name
    onto them, the engine's state has changed, [useItem] finds and uses the
    pushed item, and [restoreCrystal] takes the crystal for restored and
    leaves act 1; without the caller's step the item is not found and the
    crystal is restored, opening act 2. *)
Lemma getState_shares_arrays :
  fst <$> caller_scenario true engine_heap
  = Some (INITIAL_STATE,
          set_crystalsRestored ["Nature"]
            (set_inventory (inventory INITIAL_STATE ++ [elixir]) INITIAL_STATE),
          mkUseResult true "Used Elixir. Restored 0 HP!" (Some 0),
          set_crystalsRestored ["Nature"] INITIAL_STATE)
  ∧ fst <$> caller_scenario false engine_heap
    = Some (INITIAL_STATE, INITIAL_STATE, not_found,
            exec (restoreCrystal "Nature") INITIAL_STATE).
Proof. split; vm_compute; reflexivity. Qed.

(** * Further properties *)

(** ** Damage, healing and the purse *)

(** X1: [takeDamage] never leaves health below 0, returns the health it
    leaves, reports death exactly when the amount reaches the health before
    the call, and changes no other field; a non-negative amount never
    raises a non-negative health. *)
Theorem takeDamage_reports_death (s : GameState) (amount : Z) :
  0 ≤ health (exec (takeDamage amount) s)
  ∧ (eval (takeDamage amount) s).1 = health (exec (takeDamage amount) s)
  ∧ ((eval (takeDamage amount) s).2 = true ↔ health s ≤ amount)
  ∧ set_health (health s) (exec (takeDamage amount) s) = set_health (health s) s
  ∧ (0 ≤ amount → 0 ≤ health s →
     health (exec (takeDamage amount) s) ≤ health s).
Proof.
  rewrite takeDamage_exec. unfold eval, takeDamage. eng_unfold.
  split; [lia |]. split; [reflexivity |].
  split; [rewrite bool_decide_eq_true; lia |].
  split; [reflexivity | lia].
Qed.

Lemma takeDamage_reports_death_witness :
  eval (takeDamage 60) (set_health 10 INITIAL_STATE) = (0, true)
  ∧ health (exec (takeDamage 30) INITIAL_STATE) ≤ 100.
Proof.
  destruct (takeDamage_reports_death INITIAL_STATE 30) as (_ & _ & _ & _ & Hle).
  split; [reflexivity | apply Hle; simpl; lia].
Defined.

(** X2: healing undoes damage that did not hit the floor: when
    0 <= amount <= health <= maxHealth, [takeDamage amount] followed by
    [heal amount] gives the state back, and [heal] reports the full
    amount. *)
Theorem heal_undoes_damage (s : GameState) (amount : Z) :
  0 ≤ amount → amount ≤ health s → health s ≤ maxHealth s →
  heal amount (exec (takeDamage amount) s) = (amount, s).
Proof.
  intros H0 Hle Hmax. rewrite takeDamage_exec, heal_unfold. simpl.
  rewrite Z.max_r by lia. rewrite Z.min_r by lia.
  f_equal; [lia |]. destruct s; unfold set_health; simpl in *.
  f_equal. lia.
Qed.

Lemma heal_undoes_damage_witness :
  heal 35 (exec (takeDamage 35) INITIAL_STATE) = (35, INITIAL_STATE).
Proof. apply heal_undoes_damage; simpl; lia. Defined.

(** X6: money put in the purse can be spent again: when gold is not
    negative, [addGold amount] followed by [spendGold amount] succeeds and
    gives the state back, for negative amounts too. *)
Theorem spendGold_after_addGold (s : GameState) (amount : Z) :
  0 ≤ gold s →
  spendGold amount (exec (addGold amount) s) = (true, s).
Proof.
  intros Hg. rewrite spendGold_unfold. unfold exec, addGold. eng_unfold.
  rewrite (proj2 (Zgeb_ge _ _)) by lia.
  f_equal. destruct s; unfold set_gold; simpl in *. f_equal. lia.
Qed.

Lemma spendGold_after_addGold_witness :
  spendGold 75 (exec (addGold 75) INITIAL_STATE) = (true, INITIAL_STATE).
Proof. apply spendGold_after_addGold; simpl; lia. Defined.

(** ** Experience *)

(** X7: no experience is lost or made: [gainExperience amount] raises the
    total experience (what is held plus the thresholds paid for the levels
    reached) by exactly [amount], whether or not a level is gained. *)
Theorem gainExperience_total_xp (s : GameState) (amount : Z) :
  total_xp (exec (gainExperience amount) s) = total_xp s + amount.
Proof.
  unfold exec, total_xp. rewrite gainExperience_unfold.
  destruct (experience s + amount >=? level s * 100); simpl; lia.
Qed.

Lemma step_progress_frame (op : Op) (s : GameState) :
  match op with
  | OpGainExperience _ => True
  | OpSetState p =>
      p_level p = None → p_maxHealth p = None →
      level (step op s) = level s ∧ maxHealth (step op s) = maxHealth s
  | _ => level (step op s) = level s ∧ maxHealth (step op s) = maxHealth s
  end.
Proof.
  destruct op; simpl; auto.
  - intros Hl Hm. unfold exec, setState, modify, merge. simpl.
    rewrite Hl, Hm. auto.
  - unfold exec. rewrite removeItem_unfold.
    destruct (list_find _ _) as [[? ?] |]; auto.
  - unfold exec. rewrite useItem_unfold.
    destruct (list_find _ _) as [[? i] |]; auto.
    destruct (usable i); auto.
  - unfold exec. rewrite spendGold_unfold.
    destruct (gold s >=? amount); auto.
  - rewrite completeQuest_unfold.
    destruct (list_find _ _) as [[? ?] |]; auto.
  - rewrite addQuest_unfold.
    destruct (list_find _ _) as [[? ?] |]; auto.
  - rewrite restoreCrystal_unfold.
    repeat match goal with |- context [if ?b then _ else _] => destruct b end;
      auto.
Qed.

Lemma progress_inv_step (s : GameState) (op : Op) :
  progress_safe s op →
  1 ≤ level s ∧ maxHealth s = 100 + 20 * (level s - 1) →
  1 ≤ level (step op s)
  ∧ maxHealth (step op s) = 100 + 20 * (level (step op s) - 1).
Proof.
  intros Hok Hinv. pose proof (step_progress_frame op s) as Hf.
  assert (Hframe : level (step op s) = level s
                   ∧ maxHealth (step op s) = maxHealth s →
                   1 ≤ level (step op s)
                   ∧ maxHealth (step op s) = 100 + 20 * (level (step op s) - 1)).
  { intros [Hl Hm]. rewrite Hl, Hm. exact Hinv. }
  destruct op; simpl in Hok; try (apply Hframe; exact Hf).
  - destruct Hok as [H1 H2]. apply Hframe. exact (Hf H1 H2).
  - unfold step, exec. rewrite gainExperience_unfold.
    destruct (experience s + amount >=? level s * 100); simpl; lia.
Qed.

(** X8: level and maxHealth move together: in every state reached from
    INITIAL_STATE by engine operations in which [setState] sets neither
    level nor maxHealth, level is at least 1 and maxHealth is
    100 + 20 * (level - 1). *)
Theorem level_maxHealth_reachable (s : GameState) :
  reachable_by progress_safe s →
  1 ≤ level s ∧ maxHealth s = 100 + 20 * (level s - 1).
Proof.
  revert s. apply reachable_by_ind_inv; [simpl; lia |].
  intros s op Hinv Hok. apply progress_inv_step; assumption.
Qed.

Lemma level_maxHealth_reachable_witness :
  let s := step (OpGainExperience 250)
             (step (OpTakeDamage 30) (step (OpGainExperience 120) INITIAL_STATE)) in
  1 ≤ level s ∧ maxHealth s = 100 + 20 * (level s - 1).
Proof.
  intros s. apply level_maxHealth_reachable.
  repeat (apply reach_step; [| exact I]). apply reach_init.
Defined.
(** ** The inventory *)

Lemma set_inventory_same (s : GameState) : set_inventory (inventory s) s = s.
Proof. destruct s; reflexivity. Qed.

Lemma elem_of_delete_lookup {A} (l : list A) (i : nat) (x : A) :
  x ∈ delete i l → ∃ j, j ≠ i ∧ l !! j = Some x.
Proof.
  intros Hx. apply list_elem_of_lookup in Hx as (j & Hj).
  destruct (decide (j < i)%nat) as [Hlt | Hge].
  - rewrite list_lookup_delete_lt in Hj by exact Hlt. exists j. split; [lia | exact Hj].
  - rewrite list_lookup_delete_ge in Hj by lia. exists (S j). split; [lia | exact Hj].
Qed.

(** X3: an item put in the inventory under a new id comes out again:
    when no inventory item carries the id of [item], [addItem item] followed
    by [removeItem] of that id returns [item] and gives the state back.
    When an item already carries the id, [removeItem] takes that older item
    out and the added one stays at the end. *)
Theorem removeItem_after_addItem (s : GameState) (item : Item.t) :
  (no_item_with_id (Item.id item) (inventory s) →
   removeItem (Item.id item) (exec (addItem item) s) = (Some item, s))
  ∧ (∀ index old,
       first_with_id (Item.id item) (inventory s) index old →
       removeItem (Item.id item) (exec (addItem item) s)
       = (Some old,
          set_inventory (delete index (inventory s) ++ [item]) s)).
Proof.
  split.
  - intros Hnone. apply list_find_no_item in Hnone.
    rewrite removeItem_unfold. unfold exec, addItem. eng_unfold.
    assert (Hfind : list_find (has_id (Item.id item)) (inventory s ++ [item])
                    = Some (length (inventory s), item)).
    { apply list_find_app_Some. right.
      split; [lia |]. split; [exact Hnone |].
      rewrite Nat.sub_diag. simpl.
      destruct (decide (has_id (Item.id item) item)) as [_ | Hn];
        [reflexivity | exfalso; apply Hn; reflexivity]. }
    rewrite Hfind. f_equal.
    rewrite delete_middle, app_nil_r. destruct s; reflexivity.
  - intros index old Hfirst. apply list_find_first_with_id in Hfirst.
    rewrite removeItem_unfold. unfold exec, addItem. eng_unfold.
    assert (Hfind : list_find (has_id (Item.id item)) (inventory s ++ [item])
                    = Some (index, old)).
    { apply list_find_app_Some. left. exact Hfirst. }
    rewrite Hfind. f_equal.
    apply list_find_Some in Hfirst as (Hlook & _).
    apply lookup_lt_Some in Hlook.
    assert (Hdel : delete index (inventory s ++ [item])
                   = delete index (inventory s) ++ [item]).
    { clear -Hlook. revert index Hlook.
      induction (inventory s) as [| x l IH]; intros [| i] Hi; simpl in *;
        try lia; [reflexivity |].
      f_equal. apply IH. lia. }
    rewrite Hdel. destruct s; reflexivity.
Qed.

Lemma removeItem_after_addItem_witness :
  removeItem "elixir" (exec (addItem elixir) INITIAL_STATE)
  = (Some elixir, INITIAL_STATE).
Proof.
  destruct (removeItem_after_addItem INITIAL_STATE elixir) as [Hnew _].
  apply Hnew. apply list_find_no_item. vm_compute. reflexivity.
Defined.

(** X4: [removeItem] takes out one item or nothing: if [item] at [index] is
    the first inventory item carrying the id, it is returned, the inventory
    loses exactly that position (so it is one item shorter and otherwise
    the same items in the same order), and nothing else changes; if no item
    carries the id, the result is null and the state is unchanged. *)
Theorem removeItem_one_item (s : GameState) (itemId : string) :
  (∀ index item,
     first_with_id itemId (inventory s) index item →
     removeItem itemId s
     = (Some item, set_inventory (delete index (inventory s)) s)
     ∧ inventory s ≡ₚ item :: inventory (exec (removeItem itemId) s)
     ∧ inventory (exec (removeItem itemId) s) `sublist_of` inventory s
     ∧ S (length (inventory (exec (removeItem itemId) s)))
       = length (inventory s))
  ∧ (no_item_with_id itemId (inventory s) → removeItem itemId s = (None, s)).
Proof.
  split.
  - intros index item Hfirst.
    pose proof Hfirst as (Hlook & _ & _).
    apply list_find_first_with_id in Hfirst.
    unfold exec. rewrite removeItem_unfold, Hfirst. simpl.
    split; [reflexivity |].
    split; [apply delete_Permutation; exact Hlook |].
    split; [apply sublist_delete |].
    rewrite length_delete by eauto.
    apply lookup_lt_Some in Hlook. lia.
  - intros Hnone. apply list_find_no_item in Hnone.
    rewrite removeItem_unfold, Hnone. reflexivity.
Qed.

Lemma removeItem_one_item_witness :
  removeItem "health-potion" INITIAL_STATE
  = (inventory INITIAL_STATE !! 1%nat,
     set_inventory (take 1 (inventory INITIAL_STATE)) INITIAL_STATE)
  ∧ removeItem "lantern" INITIAL_STATE = (None, INITIAL_STATE).
Proof.
  destruct (removeItem_one_item INITIAL_STATE "health-potion") as [Hsome _].
  destruct (removeItem_one_item INITIAL_STATE "lantern") as [_ Hnone].
  split.
  - edestruct (Hsome 1%nat) as (Heq & _).
    + apply list_find_first_with_id. vm_compute. reflexivity.
    + exact Heq.
  - apply Hnone. apply list_find_no_item. vm_compute. reflexivity.
Defined.

(** X5: a potion is used once: if exactly one inventory item carries the
    id and it is a potion with a health effect that is not zero, [useItem]
    succeeds, and a second [useItem] on the id reports 'Item not found' and
    changes nothing. *)
Theorem useItem_only_once (s : GameState) (itemId : string)
    (index : nat) (item : Item.t) (h : Z) :
  inventory s !! index = Some item →
  (∀ j y, inventory s !! j = Some y → Item.id y = itemId ↔ j = index) →
  healing_potion item h →
  success (eval (useItem itemId) s) = true
  ∧ useItem itemId (exec (useItem itemId) s)
    = (not_found, exec (useItem itemId) s).
Proof.
  intros Hlook Honly Hpot.
  assert (Hfirst : first_with_id itemId (inventory s) index item).
  { split; [exact Hlook |]. split; [apply (Honly index item Hlook); reflexivity |].
    intros j y Hj Hlt Hid. apply (Honly j y Hj) in Hid. lia. }
  unfold exec, eval. rewrite (useItem_heals s itemId index item h Hfirst Hpot).
  simpl. split; [reflexivity |].
  apply useItem_absent. simpl. intros y Hy Hid.
  apply elem_of_delete_lookup in Hy as (j & Hne & Hj).
  apply (Honly j y Hj) in Hid. contradiction.
Qed.

Lemma useItem_only_once_witness :
  success (eval (useItem "health-potion") INITIAL_STATE) = true
  ∧ useItem "health-potion" (exec (useItem "health-potion") INITIAL_STATE)
    = (not_found, exec (useItem "health-potion") INITIAL_STATE).
Proof.
  apply (useItem_only_once INITIAL_STATE "health-potion" 1
           (Item.mk "health-potion" "Health Potion" potion 25 "Restores 30 HP"
              (Some (Effect.mk (Some 30) None None))) 30).
  - reflexivity.
  - intros [| [| j]] y Hj; simpl in Hj; try discriminate;
      injection Hj as <-; simpl; split; intros H; try discriminate; try lia;
      reflexivity.
  - split; [reflexivity | split; [reflexivity | discriminate]].
Defined.
(** ** Quests *)

Lemma marked_ids (l : list Quest.t) (index : nat) (quest : Quest.t) :
  l !! index = Some quest →
  Quest.id <$> <[index := mark_completed quest]> l = Quest.id <$> l.
Proof.
  intros Hlook. rewrite list_fmap_insert. simpl.
  apply list_insert_id. rewrite list_lookup_fmap, Hlook. reflexivity.
Qed.

Lemma list_find_filter_other (questId : string) (l : list Quest.t) :
  list_find (quest_has_id questId) (filter (λ q, Quest.id q ≠ questId) l)
  = None.
Proof.
  apply list_find_None, Forall_forall. intros q Hq.
  apply list_elem_of_filter in Hq as [Hne _]. exact Hne.
Qed.

Lemma active_ids_find (questId : string) (l : list Quest.t) :
  questId ∈ (Quest.id <$> l)
  ↔ is_Some (list_find (quest_has_id questId) l).
Proof.
  split.
  - intros Hin. apply list_elem_of_fmap in Hin as (q & -> & Hq).
    eapply list_find_elem_of; [exact Hq | reflexivity].
  - intros [[i q] Hf]. apply list_find_Some in Hf as (Hlook & Hid & _).
    apply list_elem_of_fmap. exists q. split; [symmetry; exact Hid |].
    eapply list_elem_of_lookup_2; eauto.
Qed.

(** X9: [completeQuest] moves a quest once: if the id is active, the id is
    appended to completedQuests and every active quest with that id is
    dropped, the other active quests staying in order; if the id is not
    active nothing changes; either way the id is not active afterwards, and
    completing it a second time changes nothing. *)
Theorem completeQuest_once (s : GameState) (questId : string) :
  let s' := exec (completeQuest questId) s in
  (questId ∈ active_ids s →
     completedQuests s' = completedQuests s ++ [questId]
     ∧ activeQuests s' = filter (λ q, Quest.id q ≠ questId) (activeQuests s))
  ∧ (questId ∉ active_ids s → s' = s)
  ∧ (questId ∉ active_ids s')
  ∧ exec (completeQuest questId) s' = s'.
Proof.
  intros s'. unfold s'. rewrite completeQuest_unfold.
  destruct (list_find (quest_has_id questId) (activeQuests s))
    as [[index quest] |] eqn:E.
  - pose proof E as Hsome. apply list_find_Some in Hsome as (Hlook & Hid & _).
    assert (Hfilter :
      filter (λ q, Quest.id q ≠ questId)
             (<[index := mark_completed quest]> (activeQuests s))
      = filter (λ q, Quest.id q ≠ questId) (activeQuests s)).
    { rewrite <- (take_drop_middle _ _ _ Hlook) at 2.
      rewrite insert_take_drop by (eapply lookup_lt_Some; eauto).
      rewrite !filter_app, !filter_cons. simpl.
      unfold quest_has_id in Hid.
      destruct (decide (Quest.id quest ≠ questId)); [contradiction |].
      reflexivity. }
    rewrite Hfilter.
    split; [intros _; split; reflexivity |].
    split.
    { intros Hnot. exfalso. apply Hnot. apply active_ids_find.
      rewrite E. eauto. }
    split.
    { unfold active_ids. simpl. rewrite active_ids_find.
      rewrite list_find_filter_other. apply is_Some_None. }
    rewrite completeQuest_unfold. simpl.
    rewrite list_find_filter_other. reflexivity.
  - split.
    { intros Hin. apply active_ids_find in Hin. rewrite E in Hin.
      destruct Hin as [? Hin]. discriminate Hin. }
    split; [reflexivity |].
    split.
    { intros Hin. apply active_ids_find in Hin. rewrite E in Hin.
      destruct Hin as [? Hin]. discriminate Hin. }
    rewrite completeQuest_unfold, E. reflexivity.
Qed.

Lemma completeQuest_once_witness :
  completedQuests (exec (completeQuest "awakening") INITIAL_STATE)
  = ["awakening"]
  ∧ exec (completeQuest "dragon") INITIAL_STATE = INITIAL_STATE.
Proof.
  destruct (completeQuest_once INITIAL_STATE "awakening") as (Hin & _).
  destruct (completeQuest_once INITIAL_STATE "dragon") as (_ & Hout & _).
  split.
  - apply Hin. apply list_elem_of_here.
  - apply Hout. intros H. apply list_elem_of_singleton in H. discriminate H.
Defined.

Lemma addQuest_NoDup (quest : Quest.t) (s : GameState) :
  NoDup (active_ids s) → NoDup (active_ids (exec (addQuest quest) s)).
Proof.
  intros Hnd. rewrite addQuest_unfold.
  destruct (list_find _ _) as [[? ?] |] eqn:E; [exact Hnd |].
  unfold active_ids. simpl. rewrite fmap_app. simpl.
  apply NoDup_app. split; [exact Hnd |]. split.
  - intros x Hx Hin. apply list_elem_of_singleton in Hin. subst x.
    apply active_ids_find in Hx. rewrite E in Hx.
    destruct Hx as [? Hx]. discriminate Hx.
  - apply NoDup_singleton.
Qed.

Lemma completeQuest_NoDup (questId : string) (s : GameState) :
  NoDup (active_ids s) → NoDup (active_ids (exec (completeQuest questId) s)).
Proof.
  intros Hnd. rewrite completeQuest_unfold.
  destruct (list_find _ _) as [[index quest] |] eqn:E; [| exact Hnd].
  apply list_find_Some in E as (Hlook & _).
  unfold active_ids in *. simpl.
  eapply sublist_NoDup; [| apply fmap_sublist, sublist_filter].
  rewrite marked_ids by exact Hlook. exact Hnd.
Qed.

Lemma active_NoDup_step (s : GameState) (op : Op) :
  NoDup (active_ids s) → quest_lists_safe s op →
  NoDup (active_ids (step op s)).
Proof.
  intros Hnd Hok. pose proof (step_quests_frame op s) as Hf.
  assert (Hframe : activeQuests (step op s) = activeQuests s →
                   NoDup (active_ids (step op s))).
  { intros Ha. unfold active_ids. rewrite Ha. exact Hnd. }
  destruct op; simpl in Hok; try (apply Hframe; exact (proj1 Hf)).
  - destruct Hok as [H1 H2]. apply Hframe. exact (proj1 (Hf H1 H2)).
  - apply completeQuest_NoDup. exact Hnd.
  - apply addQuest_NoDup. exact Hnd.
Qed.

(** X10: active quests are unique by id: in every state reached from
    INITIAL_STATE by engine operations in which [setState] does not replace
    the quest collections, no two active quests share an id; and [addQuest] with a
    quest whose id is active changes nothing, so adding a quest twice is
    adding it once. *)
Theorem active_quests_unique :
  (∀ s, reachable_by quest_lists_safe s → NoDup (active_ids s))
  ∧ (∀ s quest,
       Quest.id quest ∈ active_ids s → exec (addQuest quest) s = s)
  ∧ (∀ s quest,
       exec (addQuest quest) (exec (addQuest quest) s)
       = exec (addQuest quest) s).
Proof.
  assert (Hdup : ∀ s quest,
            Quest.id quest ∈ active_ids s → exec (addQuest quest) s = s).
  { intros s quest Hin. apply active_ids_find in Hin as [[i q] Hf].
    rewrite addQuest_unfold, Hf. reflexivity. }
  split; [| split; [exact Hdup |]].
  - apply reachable_by_ind_inv.
    + unfold active_ids. simpl. apply NoDup_singleton.
    + intros s op Hnd Hok. apply active_NoDup_step; assumption.
  - intros s quest. apply Hdup. rewrite addQuest_unfold.
    destruct (list_find _ _) as [[i q] |] eqn:E.
    + apply active_ids_find. rewrite E. eauto.
    + unfold active_ids. simpl. rewrite fmap_app.
      apply elem_of_app. right. apply list_elem_of_here.
Qed.

Lemma active_quests_unique_witness :
  let q := Quest.mk "nature" "The Whispering Woods" "Purify the Nature crystal"
                    "Whispering Woods" false (Some "Nature") in
  NoDup (active_ids (step (OpAddQuest q) (step (OpAddQuest q) INITIAL_STATE)))
  ∧ exec (addQuest q) (exec (addQuest q) INITIAL_STATE)
    = exec (addQuest q) INITIAL_STATE.
Proof.
  intros q. destruct active_quests_unique as (Hnd & _ & Htwice).
  split; [| apply Htwice].
  apply Hnd. repeat (apply reach_step; [| exact I]). apply reach_init.
Defined.
(** ** The story *)

Lemma step_story_frame (op : Op) (s : GameState) :
  match op with
  | OpRestoreCrystal _ => True
  | OpSetState p =>
      p_crystalsRestored p = None → p_currentAct p = None →
      p_storyPhase p = None →
      crystalsRestored (step op s) = crystalsRestored s
      ∧ currentAct (step op s) = currentAct s
      ∧ storyPhase (step op s) = storyPhase s
  | _ => crystalsRestored (step op s) = crystalsRestored s
         ∧ currentAct (step op s) = currentAct s
         ∧ storyPhase (step op s) = storyPhase s
  end.
Proof.
  destruct op; simpl; auto.
  - intros Hc Ha Hp. unfold exec, setState, modify, merge. simpl.
    rewrite Hc, Ha, Hp. auto.
  - unfold exec. rewrite removeItem_unfold.
    destruct (list_find _ _) as [[? ?] |]; auto.
  - unfold exec. rewrite useItem_unfold.
    destruct (list_find _ _) as [[? i] |]; auto.
    destruct (usable i); auto.
  - unfold exec. rewrite spendGold_unfold.
    destruct (gold s >=? amount); auto.
  - unfold exec. rewrite gainExperience_unfold.
    destruct (experience s + amount >=? level s * 100); auto.
  - rewrite completeQuest_unfold.
    destruct (list_find _ _) as [[? ?] |]; auto.
  - rewrite addQuest_unfold.
    destruct (list_find _ _) as [[? ?] |]; auto.
Qed.

Lemma restoreCrystal_story_inv (c : string) (s : GameState) :
  story_inv s → story_inv (exec (restoreCrystal c) s).
Proof.
  intros (Hnd & Ha & Hp). rewrite restoreCrystal_unfold.
  destruct (bool_decide (c ∈ crystalsRestored s)) eqn:Hin;
    [split; [exact Hnd | split; assumption] |].
  apply bool_decide_eq_false in Hin.
  assert (Hnd' : NoDup (crystalsRestored s ++ [c])).
  { apply NoDup_app. split; [exact Hnd |]. split; [| apply NoDup_singleton].
    intros x Hx Hc. apply list_elem_of_singleton in Hc. subst x. contradiction. }
  rewrite Ha. rewrite length_app. simpl.
  replace (length (crystalsRestored s) + 1)%nat
    with (S (length (crystalsRestored s))) by lia.
  unfold story_inv.
  destruct (length (crystalsRestored s)) as [| [| [| [| [| n]]]]] eqn:Hlen;
    simpl; rewrite ?length_app, ?Hlen; simpl; rewrite ?Ha, ?Hp, ?Hlen;
    simpl; auto.
Qed.

Lemma story_inv_initial : story_inv INITIAL_STATE.
Proof. split; [apply NoDup_nil_2 | split; reflexivity]. Qed.

Lemma story_inv_step (s : GameState) (op : Op) :
  story_inv s → story_safe s op → story_inv (step op s).
Proof.
  intros Hinv Hok. pose proof (step_story_frame op s) as Hf.
  assert (Hframe : crystalsRestored (step op s) = crystalsRestored s
                   ∧ currentAct (step op s) = currentAct s
                   ∧ storyPhase (step op s) = storyPhase s →
                   story_inv (step op s)).
  { intros (Hc & Ha & Hp). unfold story_inv. rewrite Hc, Ha, Hp.
    exact Hinv. }
  destruct op; simpl in Hok; try (apply Hframe; exact Hf).
  - destruct Hok as (H1 & H2 & H3). apply Hframe. exact (Hf H1 H2 H3).
  - apply restoreCrystal_story_inv. exact Hinv.
Qed.



Lemma step_lists_grow (op : Op) (s : GameState) :
  lists_kept op →
  completedQuests s `prefix_of` completedQuests (step op s)
  ∧ crystalsRestored s `prefix_of` crystalsRestored (step op s).
Proof.
  intros Hok.
  pose proof (step_quests_frame op s) as Hq.
  pose proof (step_story_frame op s) as Hs.
  assert (Hframe : completedQuests (step op s) = completedQuests s →
                   crystalsRestored (step op s) = crystalsRestored s →
                   completedQuests s `prefix_of` completedQuests (step op s)
                   ∧ crystalsRestored s `prefix_of` crystalsRestored (step op s)).
  { intros -> ->. split; reflexivity. }
  destruct op; simpl in Hok;
    try (apply Hframe; [exact (proj2 Hq) | exact (proj1 Hs)]).
  - destruct Hok as [Hc Hr]. unfold step, exec, setState, modify, merge.
    simpl. rewrite Hc, Hr. split; reflexivity.
  - destruct Hs as (-> & _). split; [| reflexivity].
    unfold step. rewrite completeQuest_unfold.
    destruct (list_find _ _) as [[? ?] |]; simpl;
      [apply prefix_app_r |]; reflexivity.
  - destruct Hs as (-> & _). split; [| reflexivity].
    unfold step. rewrite addQuest_unfold.
    destruct (list_find _ _) as [[? ?] |]; reflexivity.
  - destruct Hq as [_ ->]. split; [reflexivity |].
    unfold step. rewrite restoreCrystal_unfold.
    repeat match goal with |- context [if ?b then _ else _] => destruct b end;
      simpl; try reflexivity; apply prefix_app_r; reflexivity.
Qed.

(** X11: completedQuests and crystalsRestored only grow at the end: over
    any sequence of engine operations in which [setState] replaces neither
    of them, the completedQuests before is a prefix of the completedQuests
    after, and likewise for crystalsRestored, so nothing is ever removed
    from them or reordered. *)
Theorem quest_and_crystal_logs_grow (ops : list Op) (s : GameState) :
  Forall lists_kept ops →
  completedQuests s `prefix_of` completedQuests (run ops s)
  ∧ crystalsRestored s `prefix_of` crystalsRestored (run ops s).
Proof.
  revert s. induction ops as [| op ops IH]; intros s Hall.
  - split; reflexivity.
  - apply Forall_cons in Hall as [Hop Hall].
    destruct (step_lists_grow op s Hop) as [Hc Hr].
    destruct (IH (step op s) Hall) as [Hc' Hr'].
    split; etransitivity; eassumption.
Qed.

Lemma quest_and_crystal_logs_grow_witness :
  let q := Quest.mk "nature" "The Whispering Woods" "Purify the Nature crystal"
                    "Whispering Woods" false (Some "Nature") in
  let s := run [OpCompleteQuest "awakening"; OpRestoreCrystal "Fire"]
               INITIAL_STATE in
  let ops := [OpAddQuest q; OpRestoreCrystal "Water";
              OpSetState (location_only "Azure Depths");
              OpRestoreCrystal "Fire"; OpCompleteQuest "nature"] in
  completedQuests s = ["awakening"]
  ∧ crystalsRestored s = ["Fire"]
  ∧ completedQuests (run ops s) = ["awakening"; "nature"]
  ∧ crystalsRestored (run ops s) = ["Fire"; "Water"]
  ∧ completedQuests s `prefix_of` completedQuests (run ops s)
  ∧ crystalsRestored s `prefix_of` crystalsRestored (run ops s).
Proof.
  intros q s ops.
  destruct (quest_and_crystal_logs_grow ops s) as [Hc Hr];
    [unfold ops; repeat constructor |].
  split; [reflexivity |]. split; [reflexivity |].
  split; [reflexivity |]. split; [reflexivity |].
  split; [exact Hc | exact Hr].
Defined.
(** ** The caller *)

Lemma exec_seq {A} (m : Eng A) (k : Eng unit) (s : GameState) :
  exec (m;; k) s = exec k (exec m s).
Proof.
  unfold exec, mbind, Eng_bind. destruct (m s) as [a s']. reflexivity.
Qed.

Lemma run_app (ops1 ops2 : list Op) (s : GameState) :
  run (ops1 ++ ops2) s = run ops2 (run ops1 s).
Proof. unfold run. apply foldl_app. Qed.

Lemma when_number_ops (x : option Z) (k : Z → Eng unit) (ops : Z → list Op)
    (s : GameState) :
  (∀ v s, exec (k v) s = run (ops v) s) →
  exec (when_number x k) s = run (number_ops x ops) s.
Proof.
  intros Hk. unfold when_number, number_ops.
  destruct x as [v |]; [| reflexivity].
  destruct (v =? 0); [reflexivity | apply Hk].
Qed.

Lemma when_string_ops (x : option string) (k : string → Eng unit)
    (ops : string → list Op) (s : GameState) :
  (∀ v s, exec (k v) s = run (ops v) s) →
  exec (when_string x k) s = run (string_ops x ops) s.
Proof.
  intros Hk. unfold when_string, string_ops.
  destruct x as [v |]; [| reflexivity].
  destruct (String.eqb v ""); [reflexivity | apply Hk].
Qed.

Lemma forEach_addItem (items : list Item.t) (s : GameState) :
  exec (forEach addItem items) s = run (OpAddItem <$> items) s.
Proof.
  revert s. induction items as [| item items IH]; intros s; [reflexivity |].
  simpl. rewrite exec_seq, IH. reflexivity.
Qed.

Lemma seq_run {A} (m : Eng A) (k : Eng unit) (ops ops' : list Op) :
  (∀ s, exec m s = run ops s) → (∀ s, exec k s = run ops' s) →
  ∀ s, exec (m;; k) s = run (ops ++ ops') s.
Proof. intros Hm Hk s. rewrite exec_seq, run_app, Hm. apply Hk. Qed.

Lemma applyEffects_run (effects : GameEffects) (s : GameState) :
  exec (applyEffects effects) s = run (effect_ops effects) s.
Proof.
  revert s. unfold applyEffects, effect_ops.
  apply seq_run.
  { intros s. apply when_number_ops. intros v s0.
    destruct (v <? 0); reflexivity. }
  apply seq_run; [intros s; apply when_number_ops; reflexivity |].
  apply seq_run.
  { intros s. apply when_number_ops. intros v s0. rewrite exec_seq.
    reflexivity. }
  apply seq_run.
  { intros s. destruct (itemsFound effects) as [items |]; [| reflexivity].
    simpl. destruct items as [| item items]; [reflexivity |].
    apply forEach_addItem. }
  apply seq_run; [intros s; apply when_string_ops; reflexivity |].
  apply seq_run.
  { intros s. destruct (questUpdate effects) as [update |]; [| reflexivity].
    destruct (String.eqb _ _); reflexivity. }
  intros s. apply when_string_ops. reflexivity.
Qed.

Lemma effect_ops_response (effects : GameEffects) :
  Forall response_op (effect_ops effects).
Proof.
  unfold effect_ops. repeat apply Forall_app_2.
  - unfold number_ops. destruct (healthChange effects) as [v |]; [| constructor].
    destruct (v =? 0) eqn:E0; [constructor |]. apply Z.eqb_neq in E0.
    destruct (v <? 0) eqn:E; repeat constructor; simpl.
    + apply Z.ltb_lt in E. lia.
    + apply Z.ltb_ge in E. lia.
  - unfold number_ops. destruct (goldChange effects) as [v |]; [| constructor].
    destruct (v =? 0); repeat constructor.
  - unfold number_ops. destruct (experienceGain effects) as [v |]; [| constructor].
    destruct (v =? 0); repeat constructor.
  - apply Forall_fmap, Forall_true. intros item. exact I.
  - unfold string_ops. destruct (locationUpdate effects) as [v |]; [| constructor].
    destruct (String.eqb v ""); repeat constructor. simpl. eauto.
  - destruct (questUpdate effects) as [update |]; [| constructor].
    destruct (String.eqb _ _); repeat constructor.
  - unfold string_ops. destruct (crystalRestored effects) as [v |]; [| constructor].
    destruct (String.eqb v ""); repeat constructor.
Qed.

Lemma run_preserves (P : GameState → Prop) (ops : list Op) (s : GameState) :
  (∀ s op, response_op op → P s → P (step op s)) →
  Forall response_op ops → P s → P (run ops s).
Proof.
  intros Hstep. revert s. induction ops as [| op ops IH]; intros s Hall HP.
  - exact HP.
  - apply Forall_cons in Hall as [Hop Hall]. simpl.
    apply (IH (step op s) Hall). apply Hstep; assumption.
Qed.

Lemma session_snoc (responses : list GameEffects) (effects : GameEffects) :
  session (responses ++ [effects])
  = run (effect_ops effects) (session responses).
Proof.
  unfold session. rewrite foldl_snoc. apply applyEffects_run.
Qed.

Lemma session_preserves (P : GameState → Prop) :
  P INITIAL_STATE →
  (∀ s op, response_op op → P s → P (step op s)) →
  ∀ responses, P (session responses).
Proof.
  intros H0 Hstep responses.
  induction responses as [| effects responses IH] using rev_ind; [exact H0 |].
  rewrite session_snoc.
  apply run_preserves; [exact Hstep | apply effect_ops_response | exact IH].
Qed.

(** X16: [handleCommand] drives the engine through its methods only: the
    state after applying the effects of a response is the state after the
    engine calls [effect_ops] lists, in that order (damage or healing, gold,
    experience, items, location, quest, crystal); the calls are never
    [removeItem], [useItem], [spendGold] or [addQuest], damage and healing
    amounts are positive, and [setState] only sets currentLocation. *)
Theorem applyEffects_as_calls (effects : GameEffects) (s : GameState) :
  exec (applyEffects effects) s = run (effect_ops effects) s
  ∧ Forall response_op (effect_ops effects).
Proof. split; [apply applyEffects_run | apply effect_ops_response]. Qed.
Lemma quests_disjoint_step (s : GameState) (op : Op) :
  quests_disjoint s → quest_safe s op → quests_disjoint (step op s).
Proof.
  intros Hd Hok. pose proof (step_quests_frame op s) as Hf.
  assert (Hframe : activeQuests (step op s) = activeQuests s
                   ∧ completedQuests (step op s) = completedQuests s →
                   quests_disjoint (step op s)).
  { intros [Ha Hc]. unfold quests_disjoint, active_ids in *.
    rewrite Ha, Hc. exact Hd. }
  destruct op; simpl in Hok; try (apply Hframe; exact Hf).
  - destruct Hok as [H1 H2]. apply Hframe. exact (Hf H1 H2).
  - apply completeQuest_disjoint. exact Hd.
  - apply addQuest_disjoint; assumption.
Qed.

Lemma response_op_safe (s : GameState) (op : Op) :
  response_op op →
  quest_safe s op ∧ quest_lists_safe s op ∧ story_safe s op
  ∧ progress_safe s op.
Proof.
  destruct op; simpl; try tauto.
  intros [v ->]. simpl. repeat split; reflexivity.
Qed.

Lemma response_health_step (s : GameState) (op : Op) :
  response_op op → health_bounded s → health_bounded (step op s).
Proof.
  unfold health_bounded. intros Hop Hb.
  destruct op; simpl in Hop; try contradiction; unfold step.
  - destruct Hop as [v ->]. exact Hb.
  - rewrite takeDamage_exec. simpl. lia.
  - unfold exec. rewrite heal_unfold. simpl. lia.
  - exact Hb.
  - exact Hb.
  - unfold exec. rewrite gainExperience_unfold.
    destruct (experience s + amount >=? level s * 100); simpl; lia.
  - rewrite completeQuest_unfold.
    destruct (list_find _ _) as [[? ?] |]; exact Hb.
  - rewrite restoreCrystal_unfold.
    repeat match goal with |- context [if ?b then _ else _] => destruct b end;
      exact Hb.
Qed.

Lemma response_active_step (s : GameState) (op : Op) :
  response_op op → activeQuests (step op s) `sublist_of` activeQuests s.
Proof.
  intros Hop. pose proof (step_quests_frame op s) as Hf.
  destruct op; simpl in Hop; try contradiction;
    try (rewrite (proj1 Hf); reflexivity).
  - destruct Hop as [v ->]. reflexivity.
  - unfold step. rewrite completeQuest_unfold.
    destruct (list_find _ _) as [[index quest] |] eqn:E; [| reflexivity].
    apply list_find_Some in E as (Hlook & Hid & _). simpl.
    rewrite <- (take_drop_middle _ _ _ Hlook) at 2.
    rewrite insert_take_drop by (eapply lookup_lt_Some; eauto).
    rewrite !filter_app, !filter_cons. simpl.
    unfold quest_has_id in Hid.
    destruct (decide (Quest.id quest ≠ questId)); [contradiction |].
    apply sublist_app; [apply sublist_filter |].
    apply sublist_cons, sublist_filter.
Qed.

(** X17: whatever the narrative service answers, response after response
    from INITIAL_STATE: health stays within 0 and maxHealth (the caller
    passes the size of a negative healthChange to [takeDamage] and a
    positive one to [heal]); no quest id is both active and completed and
    no two active quests share an id; no quest is ever added, the active
    quests being those of INITIAL_STATE that are not completed yet; act and
    phase follow the number of distinct crystals restored; and maxHealth is
    100 + 20 * (level - 1) with level at least 1. *)
Theorem session_invariants (responses : list GameEffects) :
  let s := session responses in
  health_bounded s
  ∧ quests_disjoint s
  ∧ NoDup (active_ids s)
  ∧ activeQuests s `sublist_of` activeQuests INITIAL_STATE
  ∧ story_inv s
  ∧ 1 ≤ level s ∧ maxHealth s = 100 + 20 * (level s - 1).
Proof.
  apply (session_preserves
           (λ s, health_bounded s ∧ quests_disjoint s ∧ NoDup (active_ids s)
                 ∧ activeQuests s `sublist_of` activeQuests INITIAL_STATE
                 ∧ story_inv s
                 ∧ 1 ≤ level s ∧ maxHealth s = 100 + 20 * (level s - 1))).
  - split; [unfold health_bounded; simpl; lia |].
    split; [intros q Hq Hin; inversion Hin |].
    split; [apply NoDup_singleton |].
    split; [reflexivity |].
    split; [exact story_inv_initial | simpl; lia].
  - intros s op Hop (Hh & Hd & Hnd & Hsub & Hst & Hlv).
    destruct (response_op_safe s op Hop) as (Hq & Hql & Hss & Hps).
    split; [apply response_health_step; assumption |].
    split; [apply quests_disjoint_step; assumption |].
    split; [apply active_NoDup_step; assumption |].
    split; [etransitivity; [apply response_active_step; exact Hop | exact Hsub] |].
    split; [apply story_inv_step; assumption |].
    apply progress_inv_step; assumption.
Qed.

Lemma step_gold_frame (op : Op) (s : GameState) :
  response_op op →
  gold (step op s)
  = match op with OpAddGold amount => gold s + amount | _ => gold s end.
Proof.
  intros Hop. destruct op; simpl in Hop; try contradiction; unfold step;
    try reflexivity.
  - destruct Hop as [v ->]. reflexivity.
  - unfold exec. rewrite gainExperience_unfold.
    destruct (experience s + amount >=? level s * 100); reflexivity.
  - rewrite completeQuest_unfold.
    destruct (list_find _ _) as [[? ?] |]; reflexivity.
  - rewrite restoreCrystal_unfold.
    repeat match goal with |- context [if ?b then _ else _] => destruct b end;
      reflexivity.
Qed.

Lemma gold_added_app (ops1 ops2 : list Op) :
  gold_added (ops1 ++ ops2) = gold_added ops1 + gold_added ops2.
Proof.
  induction ops1 as [| op ops1 IH]; [reflexivity |].
  destruct op; simpl; rewrite ?IH; lia.
Qed.

Lemma run_gold (ops : list Op) (s : GameState) :
  Forall response_op ops → gold (run ops s) = gold s + gold_added ops.
Proof.
  intros Hall. revert s. induction Hall as [| op ops Hop Hall IH]; intros s.
  - simpl. lia.
  - change (run (op :: ops) s) with (run ops (step op s)).
    rewrite IH, (step_gold_frame op s Hop). destruct op; simpl; lia.
Qed.

Lemma effect_ops_gold (effects : GameEffects) :
  gold_added (effect_ops effects) = default 0 (goldChange effects).
Proof.
  unfold effect_ops. rewrite !gold_added_app.
  assert (H1 : gold_added (number_ops (healthChange effects)
            (λ change, if change <? 0 then [OpTakeDamage (Z.abs change)]
                       else [OpHeal change])) = 0).
  { unfold number_ops. destruct (healthChange effects) as [v |]; [| reflexivity].
    destruct (v =? 0); [reflexivity |]. destruct (v <? 0); reflexivity. }
  assert (H3 : gold_added (number_ops (experienceGain effects)
                             (λ v, [OpGainExperience v])) = 0).
  { unfold number_ops. destruct (experienceGain effects) as [v |]; [| reflexivity].
    destruct (v =? 0); reflexivity. }
  assert (H4 : gold_added (OpAddItem <$> default [] (itemsFound effects)) = 0).
  { induction (default [] (itemsFound effects)); [reflexivity | exact IHl]. }
  assert (H5 : gold_added (string_ops (locationUpdate effects)
                             (λ v, [OpSetState (location_only v)])) = 0).
  { unfold string_ops. destruct (locationUpdate effects) as [v |]; [| reflexivity].
    destruct (String.eqb v ""); reflexivity. }
  assert (H6 : gold_added
                 match questUpdate effects with
                 | Some update =>
                     if String.eqb (QuestUpdate.status update) "complete"
                     then [OpCompleteQuest (QuestUpdate.questId update)]
                     else []
                 | None => []
                 end = 0).
  { destruct (questUpdate effects) as [update |]; [| reflexivity].
    destruct (String.eqb _ _); reflexivity. }
  assert (H7 : gold_added (string_ops (crystalRestored effects)
                             (λ v, [OpRestoreCrystal v])) = 0).
  { unfold string_ops. destruct (crystalRestored effects) as [v |]; [| reflexivity].
    destruct (String.eqb v ""); reflexivity. }
  rewrite H1, H3, H4, H5, H6, H7.
  unfold number_ops. destruct (goldChange effects) as [v |]; simpl; [| lia].
  destruct (v =? 0) eqn:E; simpl; [apply Z.eqb_eq in E |]; lia.
Qed.

(** X18: the purse is a running sum: after any sequence of responses, gold
    is the 50 of INITIAL_STATE plus the sum of their goldChange values,
    losses included, with no floor at 0. *)
Theorem session_gold (responses : list GameEffects) :
  gold (session responses) = 50 + gold_changes responses.
Proof.
  induction responses as [| effects responses IH] using rev_ind;
    [reflexivity |].
  rewrite session_snoc, run_gold by apply effect_ops_response.
  rewrite IH, effect_ops_gold. unfold gold_changes.
  rewrite foldr_app. simpl.
  generalize (default 0 (goldChange effects)). intros d.
  clear. induction responses as [| e rs IHrs]; simpl; lia.
Qed.
(** X19: a response with nothing in it changes nothing: if every field of
    the effects is absent, zero or empty (and a quest update, if any, has a
    status other than 'complete'), applying them leaves the state as it
    is. *)
Theorem idle_response_changes_nothing (effects : GameEffects) (s : GameState) :
  idle effects → exec (applyEffects effects) s = s.
Proof.
  intros (Hh & Hg & He & Hi & Hl & Hq & Hc).
  rewrite applyEffects_run.
  assert (Hquest : match questUpdate effects with
                   | Some update =>
                       if String.eqb (QuestUpdate.status update) "complete"
                       then [OpCompleteQuest (QuestUpdate.questId update)]
                       else []
                   | None => []
                   end = []).
  { destruct (questUpdate effects) as [update |]; [| reflexivity].
    destruct (String.eqb (QuestUpdate.status update) "complete") eqn:E;
      [| reflexivity].
    apply String.eqb_eq in E. exfalso. exact (Hq update eq_refl E). }
  assert (Hops : effect_ops effects = []).
  { unfold effect_ops. rewrite Hquest. unfold number_ops, string_ops.
    destruct Hh as [-> | ->], Hg as [-> | ->], He as [-> | ->],
             Hi as [-> | ->], Hl as [-> | ->], Hc as [-> | ->];
      reflexivity. }
  rewrite Hops. reflexivity.
Qed.

Lemma idle_response_changes_nothing_witness :
  let fallback :=
    mkGameEffects (Some 0) (Some 0) (Some 0) (Some []) (Some "") None
                  (Some "") in
  exec (applyEffects fallback) INITIAL_STATE = INITIAL_STATE.
Proof.
  intros fallback. apply idle_response_changes_nothing.
  unfold idle. simpl. repeat split; auto; intros update H; discriminate H.
Defined.

Lemma run_frame {X} (f : GameState → X) (ok : Op → Prop) (ops : list Op) :
  (∀ op s, ok op → f (step op s) = f s) →
  Forall ok ops → ∀ s, f (run ops s) = f s.
Proof.
  intros Hstep Hall. induction Hall as [| op ops Hop Hall IH]; intros s.
  - reflexivity.
  - change (run (op :: ops) s) with (run ops (step op s)).
    rewrite IH. apply Hstep. exact Hop.
Qed.

Lemma vitals_frame (op : Op) (s : GameState) :
  vitals_call op →
  (experience (step op s), level (step op s), maxHealth (step op s))
  = (experience s, level s, maxHealth s).
Proof. destruct op; simpl; try contradiction; reflexivity. Qed.

Lemma late_frame (op : Op) (s : GameState) :
  late_call op →
  (health (step op s), level (step op s), maxHealth (step op s))
  = (health s, level s, maxHealth s).
Proof.
  destruct op; simpl; try contradiction; intros Hop; try reflexivity.
  - destruct Hop as [v ->]. reflexivity.
  - rewrite completeQuest_unfold.
    destruct (list_find _ _) as [[? ?] |]; reflexivity.
  - rewrite restoreCrystal_unfold.
    repeat match goal with |- context [if ?b then _ else _] => destruct b end;
      reflexivity.
Qed.

Lemma effect_ops_around_gain (effects : GameEffects) (gain : Z) :
  experienceGain effects = Some gain → gain ≠ 0 →
  ∃ pre post,
    Forall vitals_call pre ∧ Forall late_call post
    ∧ effect_ops effects = pre ++ OpGainExperience gain :: post.
Proof.
  intros Hgain Hne.
  exists (number_ops (healthChange effects)
            (λ change, if change <? 0 then [OpTakeDamage (Z.abs change)]
                       else [OpHeal change])
          ++ number_ops (goldChange effects) (λ v, [OpAddGold v])).
  exists ((OpAddItem <$> default [] (itemsFound effects))
          ++ string_ops (locationUpdate effects)
               (λ v, [OpSetState (location_only v)])
          ++ match questUpdate effects with
             | Some update =>
                 if String.eqb (QuestUpdate.status update) "complete"
                 then [OpCompleteQuest (QuestUpdate.questId update)]
                 else []
             | None => []
             end
          ++ string_ops (crystalRestored effects)
               (λ v, [OpRestoreCrystal v])).
  split; [| split].
  - unfold number_ops. apply Forall_app_2.
    + destruct (healthChange effects) as [v |]; [| constructor].
      destruct (v =? 0); [constructor |].
      destruct (v <? 0); repeat constructor.
    + destruct (goldChange effects) as [v |]; [| constructor].
      destruct (v =? 0); repeat constructor.
  - unfold string_ops. repeat apply Forall_app_2.
    + apply Forall_fmap, Forall_true. intros ?. exact I.
    + destruct (locationUpdate effects) as [v |]; [| constructor].
      destruct (String.eqb v ""); repeat constructor. simpl. eauto.
    + destruct (questUpdate effects) as [update |]; [| constructor].
      destruct (String.eqb _ _); repeat constructor.
    + destruct (crystalRestored effects) as [v |]; [| constructor].
      destruct (String.eqb v ""); repeat constructor.
  - unfold effect_ops. rewrite Hgain. unfold number_ops at 3.
    rewrite (proj2 (Z.eqb_neq gain 0) Hne).
    rewrite <- app_assoc. reflexivity.
Qed.

(** X20: a level gained in a response wipes out its damage: the effects
    are applied in a fixed order, health first and experience after it, so
    when the experienceGain of a response reaches the threshold
    level * 100, the state after the whole response has level + 1,
    maxHealth + 20 and full health, whatever its healthChange was. *)
Theorem level_up_erases_damage (effects : GameEffects) (s : GameState)
    (gain : Z) :
  experienceGain effects = Some gain → gain ≠ 0 →
  level s * 100 ≤ experience s + gain →
  let s' := exec (applyEffects effects) s in
  level s' = level s + 1
  ∧ maxHealth s' = maxHealth s + 20
  ∧ health s' = maxHealth s + 20.
Proof.
  intros Hgain Hne Hreach. cbv zeta. rewrite applyEffects_run.
  destruct (effect_ops_around_gain effects gain Hgain Hne)
    as (pre & post & Hpre & Hpost & ->).
  rewrite run_app.
  pose proof (run_frame _ vitals_call pre vitals_frame Hpre s) as Hs1.
  set (s1 := run pre s) in *.
  injection Hs1 as He Hl Hm.
  change (run (OpGainExperience gain :: post) s1)
    with (run post (exec (gainExperience gain) s1)).
  pose proof (run_frame _ late_call post late_frame Hpost
                (exec (gainExperience gain) s1)) as Hs3.
  injection Hs3 as Hh3 Hl3 Hm3. rewrite Hh3, Hl3, Hm3.
  unfold exec. rewrite gainExperience_unfold.
  rewrite (proj2 (Zgeb_ge _ _)) by lia. simpl. lia.
Qed.

Lemma level_up_erases_damage_witness :
  let effects :=
    mkGameEffects (Some (-90)) None (Some 150) None None None None in
  let s' := exec (applyEffects effects) INITIAL_STATE in
  level s' = 2 ∧ maxHealth s' = 120 ∧ health s' = 120.
Proof.
  intros effects.
  apply (level_up_erases_damage effects INITIAL_STATE 150);
    [reflexivity | discriminate | simpl; lia].
Defined.
Lemma step_xp_frame (op : Op) (s : GameState) :
  response_op op →
  total_xp (step op s)
  = match op with
    | OpGainExperience amount => total_xp s + amount
    | _ => total_xp s
    end.
Proof.
  intros Hop. destruct op; simpl in Hop; try contradiction; unfold step;
    try reflexivity.
  - destruct Hop as [v ->]. reflexivity.
  - unfold exec, total_xp. rewrite gainExperience_unfold.
    destruct (experience s + amount >=? level s * 100); simpl; lia.
  - rewrite completeQuest_unfold.
    destruct (list_find _ _) as [[? ?] |]; reflexivity.
  - rewrite restoreCrystal_unfold.
    repeat match goal with |- context [if ?b then _ else _] => destruct b end;
      reflexivity.
Qed.

Lemma step_inventory_frame (op : Op) (s : GameState) :
  response_op op →
  inventory (step op s)
  = match op with
    | OpAddItem item => inventory s ++ [item]
    | _ => inventory s
    end.
Proof.
  intros Hop. destruct op; simpl in Hop; try contradiction; unfold step;
    try reflexivity.
  - destruct Hop as [v ->]. reflexivity.
  - unfold exec. rewrite gainExperience_unfold.
    destruct (experience s + amount >=? level s * 100); reflexivity.
  - rewrite completeQuest_unfold.
    destruct (list_find _ _) as [[? ?] |]; reflexivity.
  - rewrite restoreCrystal_unfold.
    repeat match goal with |- context [if ?b then _ else _] => destruct b end;
      reflexivity.
Qed.

Lemma run_xp (ops : list Op) (s : GameState) :
  Forall response_op ops → total_xp (run ops s) = total_xp s + xp_added ops.
Proof.
  intros Hall. revert s. induction Hall as [| op ops Hop Hall IH]; intros s.
  - simpl. lia.
  - change (run (op :: ops) s) with (run ops (step op s)).
    rewrite IH, (step_xp_frame op s Hop). destruct op; simpl; lia.
Qed.

Lemma run_inventory (ops : list Op) (s : GameState) :
  Forall response_op ops →
  inventory (run ops s) = inventory s ++ items_added ops.
Proof.
  intros Hall. revert s. induction Hall as [| op ops Hop Hall IH]; intros s.
  - simpl. rewrite app_nil_r. reflexivity.
  - change (run (op :: ops) s) with (run ops (step op s)).
    rewrite IH, (step_inventory_frame op s Hop).
    destruct op; simpl; try reflexivity.
    rewrite <- app_assoc. reflexivity.
Qed.

Lemma xp_added_app (ops1 ops2 : list Op) :
  xp_added (ops1 ++ ops2) = xp_added ops1 + xp_added ops2.
Proof.
  induction ops1 as [| op ops1 IH]; [reflexivity |].
  destruct op; simpl; rewrite ?IH; lia.
Qed.

Lemma items_added_app (ops1 ops2 : list Op) :
  items_added (ops1 ++ ops2) = items_added ops1 ++ items_added ops2.
Proof.
  induction ops1 as [| op ops1 IH]; [reflexivity |].
  destruct op; simpl; rewrite ?IH; reflexivity.
Qed.

Lemma number_ops_no_items (x : option Z) (k : Z → list Op) :
  (∀ v, items_added (k v) = []) → items_added (number_ops x k) = [].
Proof.
  intros Hk. unfold number_ops. destruct x as [v |]; [| reflexivity].
  destruct (v =? 0); [reflexivity | apply Hk].
Qed.

Lemma string_ops_no_items (x : option string) (k : string → list Op) :
  (∀ v, items_added (k v) = []) → items_added (string_ops x k) = [].
Proof.
  intros Hk. unfold string_ops. destruct x as [v |]; [| reflexivity].
  destruct (String.eqb v ""); [reflexivity | apply Hk].
Qed.

Lemma number_ops_no_xp (x : option Z) (k : Z → list Op) :
  (∀ v, xp_added (k v) = 0) → xp_added (number_ops x k) = 0.
Proof.
  intros Hk. unfold number_ops. destruct x as [v |]; [| reflexivity].
  destruct (v =? 0); [reflexivity | apply Hk].
Qed.

Lemma string_ops_no_xp (x : option string) (k : string → list Op) :
  (∀ v, xp_added (k v) = 0) → xp_added (string_ops x k) = 0.
Proof.
  intros Hk. unfold string_ops. destruct x as [v |]; [| reflexivity].
  destruct (String.eqb v ""); [reflexivity | apply Hk].
Qed.

Lemma effect_ops_items (effects : GameEffects) :
  items_added (effect_ops effects) = default [] (itemsFound effects).
Proof.
  unfold effect_ops. rewrite !items_added_app.
  rewrite !number_ops_no_items, !string_ops_no_items; try reflexivity.
  - assert (Hq : items_added
                   match questUpdate effects with
                   | Some update =>
                       if String.eqb (QuestUpdate.status update) "complete"
                       then [OpCompleteQuest (QuestUpdate.questId update)]
                       else []
                   | None => []
                   end = []).
    { destruct (questUpdate effects) as [update |]; [| reflexivity].
      destruct (String.eqb _ _); reflexivity. }
    rewrite Hq. simpl. rewrite app_nil_r.
    induction (default [] (itemsFound effects)) as [| item l IH];
      [reflexivity | simpl; f_equal; exact IH].
  - intros v. destruct (v <? 0); reflexivity.
Qed.

Lemma effect_ops_xp (effects : GameEffects) :
  xp_added (effect_ops effects) = default 0 (experienceGain effects).
Proof.
  unfold effect_ops. rewrite !xp_added_app.
  rewrite (number_ops_no_xp (healthChange effects))
    by (intros v; destruct (v <? 0); reflexivity).
  rewrite (number_ops_no_xp (goldChange effects)) by reflexivity.
  rewrite !string_ops_no_xp by reflexivity.
  assert (Hq : xp_added
                 match questUpdate effects with
                 | Some update =>
                     if String.eqb (QuestUpdate.status update) "complete"
                     then [OpCompleteQuest (QuestUpdate.questId update)]
                     else []
                 | None => []
                 end = 0).
  { destruct (questUpdate effects) as [update |]; [| reflexivity].
    destruct (String.eqb _ _); reflexivity. }
  assert (Hi : xp_added (OpAddItem <$> default [] (itemsFound effects)) = 0).
  { induction (default [] (itemsFound effects)); [reflexivity | assumption]. }
  rewrite Hq, Hi.
  unfold number_ops. destruct (experienceGain effects) as [v |]; simpl; [| lia].
  destruct (v =? 0) eqn:E; simpl; [apply Z.eqb_eq in E |]; lia.
Qed.

Lemma xp_gains_snoc (responses : list GameEffects) (effects : GameEffects) :
  xp_gains (responses ++ [effects])
  = xp_gains responses + default 0 (experienceGain effects).
Proof.
  unfold xp_gains. induction responses as [| e rs IH]; simpl; lia.
Qed.

Lemma items_found_snoc (responses : list GameEffects) (effects : GameEffects) :
  items_found (responses ++ [effects])
  = items_found responses ++ default [] (itemsFound effects).
Proof.
  unfold items_found. induction responses as [| e rs IH]; simpl.
  - apply app_nil_r.
  - rewrite IH, app_assoc. reflexivity.
Qed.

(** X21: across a session no experience is lost and no item leaves the
    inventory: after any sequence of responses the total experience (held
    plus paid for levels) is the sum of their experienceGain values, and
    the inventory is that of INITIAL_STATE followed by every item found, in
    order (the application calls neither [useItem] nor [removeItem]). *)
Theorem session_experience_and_items (responses : list GameEffects) :
  total_xp (session responses) = xp_gains responses
  ∧ inventory (session responses)
    = inventory INITIAL_STATE ++ items_found responses.
Proof.
  induction responses as [| effects responses [IHx IHi]] using rev_ind;
    [split; reflexivity |].
  rewrite session_snoc.
  rewrite run_xp, run_inventory by apply effect_ops_response.
  rewrite IHx, IHi, effect_ops_xp, effect_ops_items.
  rewrite xp_gains_snoc, items_found_snoc, app_assoc.
  split; reflexivity.
Qed.
(** ** Commands *)

Lemma split_space_one_word (w : string) :
  has_space w = false → split_space w = [w].
Proof.
  induction w as [| c w IH]; intros Hw; [reflexivity |].
  simpl in Hw. apply orb_false_iff in Hw as [Hc Hw].
  simpl. rewrite Hc, (IH Hw). reflexivity.
Qed.

(** X13: the target is never empty: [extractTarget] returns 'unknown' for
    a command of one word, also when a single space follows it, and never
    returns the empty string. *)
Theorem extractTarget_unknown :
  (∀ command, extractTarget command ≠ EmptyString)
  ∧ (∀ w, has_space w = false → extractTarget w = "unknown")
  ∧ (∀ w, has_space w = false → extractTarget (w +:+ " ") = "unknown").
Proof.
  split; [| split].
  - intros command. unfold extractTarget.
    destruct (String.eqb _ "") eqn:E; [discriminate |].
    apply String.eqb_neq in E. exact E.
  - intros w Hw. unfold extractTarget.
    rewrite split_space_one_word by exact Hw. reflexivity.
  - intros w Hw. unfold extractTarget.
    change (w +:+ " ") with (w +:+ " " +:+ "").
    rewrite (split_space_first_word w "" Hw). reflexivity.
Qed.

Lemma extractTarget_unknown_witness :
  extractTarget "attack" = "unknown" ∧ extractTarget "attack " = "unknown".
Proof.
  destruct extractTarget_unknown as (_ & Hone & Hspace).
  split; [apply Hone; reflexivity | apply (Hspace "attack"); reflexivity].
Defined.

(** X14: [parseCommand] reads its keywords as a priority table: the action
    is that of the first row of [RULES] one of whose keywords occurs
    anywhere in the lowered, trimmed command (inside a longer word too),
    and explore when no row matches; so a command with keywords of several
    rows gets the action of the earliest row. *)
Theorem parseCommand_priority (command : string) :
  action (parseCommand command) = classify (lowered command).
Proof.
  unfold parseCommand, classify, RULES, matches. fold (lowered command).
  simpl.
  repeat match goal with
         | |- context [includes ?k (lowered command)] =>
             destruct (includes k (lowered command)); try reflexivity
         end.
Qed.

Lemma lower_char_idem (c : ascii) : lower_char (lower_char c) = lower_char c.
Proof. destruct c as [[] [] [] [] [] [] [] []]; reflexivity. Qed.

Lemma is_white_lower_char (c : ascii) : is_white (lower_char c) = is_white c.
Proof. destruct c as [[] [] [] [] [] [] [] []]; reflexivity. Qed.

Lemma toLowerCase_idem (s : string) : toLowerCase (toLowerCase s) = toLowerCase s.
Proof.
  induction s as [| c s IH]; [reflexivity |].
  simpl. rewrite lower_char_idem, IH. reflexivity.
Qed.

Lemma toLowerCase_app (s t : string) :
  toLowerCase (s +:+ t) = toLowerCase s +:+ toLowerCase t.
Proof. induction s as [| c s IH]; [reflexivity | simpl; rewrite IH; reflexivity]. Qed.

Lemma rev_app_snoc (s acc : string) (w : ascii) :
  String.rev_app (s +:+ String w "") acc = String w (String.rev_app s acc).
Proof.
  revert acc. induction s as [| c s IH]; intros acc; [reflexivity |].
  simpl. apply IH.
Qed.

Lemma trim_leading (w : ascii) (s : string) :
  is_white w = true → trim (String w s) = trim s.
Proof. intros Hw. unfold trim. simpl. rewrite Hw. reflexivity. Qed.

Lemma trim_trailing (w : ascii) (s : string) :
  is_white w = true → trim (s +:+ String w "") = trim s.
Proof.
  intros Hw. unfold trim. f_equal.
  induction s as [| c s IH].
  - simpl. rewrite Hw. reflexivity.
  - simpl. destruct (is_white c) eqn:Hc; [exact IH |].
    change (String c (s +:+ String w "")) with (String c s +:+ String w "").
    unfold String.rev. rewrite rev_app_snoc. simpl. rewrite Hw. reflexivity.
Qed.

(** X15: letter case and surrounding whitespace do not count: a command
    parses the same with a whitespace character put before it or after it,
    and the same as its lower-case form, the target being taken from the
    lowered, trimmed text. *)
Theorem parseCommand_case_and_padding (command : string) :
  (∀ w, is_white w = true →
        parseCommand (String w command) = parseCommand command
        ∧ parseCommand (command +:+ String w "") = parseCommand command)
  ∧ parseCommand (toLowerCase command) = parseCommand command.
Proof.
  split.
  - intros w Hw.
    assert (Hlw : is_white (lower_char w) = true)
      by (rewrite is_white_lower_char; exact Hw).
    split; unfold parseCommand.
    + simpl toLowerCase. rewrite trim_leading by exact Hlw. reflexivity.
    + rewrite toLowerCase_app. simpl toLowerCase.
      rewrite trim_trailing by exact Hlw. reflexivity.
  - unfold parseCommand. rewrite toLowerCase_idem. reflexivity.
Qed.

Lemma parseCommand_case_and_padding_witness :
  parseCommand " Take the rusty sword" = parseCommand "Take the rusty sword"
  ∧ parseCommand "TAKE THE RUSTY SWORD"
    = mkParsed "pickup" None (Some "the rusty sword").
Proof.
  destruct (parseCommand_case_and_padding "Take the rusty sword")
    as [Hpad _].
  split; [apply (Hpad " "%char); reflexivity | vm_compute; reflexivity].
Defined.
(** ** The heap engine *)

(** X22: the heap engine and the engine on values agree: from an engine
    object that holds the state [s], every sequence of calls runs to the
    end on the heap (no reference dangles), returns the values the value
    model returns, and leaves the engine object holding the state the value
    model computes. *)
Theorem heap_engine_refines_values (h : gmap positive Heap.cell)
    (this : positive) (s : GameState) (ops : list Op) :
  represents h this s →
  ∃ h', Heap.hrun this ops h = Some (results ops s, h')
        ∧ represents h' this (run ops s)
        ∧ Heap.view h' this = Some (run ops s).
Proof.
  intros Hrep. destruct (hrun_refines this ops h s Hrep) as (h' & Hrun & Hrep').
  exists h'. split; [exact Hrun |]. split; [exact Hrep' |].
  apply represents_view. exact Hrep'.
Qed.

Lemma heap_engine_refines_values_witness :
  let ops := [OpTakeDamage 30; OpUseItem "health-potion";
              OpCompleteQuest "awakening"; OpRestoreCrystal "Nature"] in
  ∃ h', Heap.hrun engine_this ops engine_heap
        = Some (results ops INITIAL_STATE, h')
        ∧ represents h' engine_this (run ops INITIAL_STATE)
        ∧ Heap.view h' engine_this = Some (run ops INITIAL_STATE).
Proof.
  intros ops. apply heap_engine_refines_values.
  exists 6%positive, 1%positive, 2%positive, 3%positive, 4%positive.
  repeat split; try (vm_compute; reflexivity). discriminate.
Defined.

Lemma holds_state_view h st s :
  holds_state h st s → Heap.view_state h st = Some s.
Proof.
  intros (li & la & lc & lr & Hs & Hi & Ha & Hc & Hr & _).
  unfold Heap.view_state, Heap.get_state, Heap.get_items, Heap.get_quests,
    Heap.get_strings.
  rewrite Hs. simpl. rewrite Hi, Ha, Hc, Hr. simpl. destruct s; reflexivity.
Qed.

Ltac state_intro :=
  intros (li & la & lc & lr & Hs & Hi & Ha & Hc & Hr & Hne);
  assert (lr ≠ lc) by congruence;
  heap_distinct.

Lemma construct_cells (h : gmap positive Heap.cell) (initial : positive)
    (s : GameState) :
  holds_state h initial s →
  ∃ this st li la lc lr h1,
    Heap.construct initial h = Some (this, h1)
    ∧ h1 !! this = Some (Heap.CEngine st)
    ∧ h1 !! st = Some (Heap.CState (obj_of s li la lc lr))
    ∧ h1 !! initial = Some (Heap.CState (obj_of s li la lc lr))
    ∧ h1 !! li = Some (Heap.CItems (inventory s))
    ∧ h1 !! la = Some (Heap.CQuests (activeQuests s))
    ∧ h1 !! lc = Some (Heap.CStrings (completedQuests s))
    ∧ h1 !! lr = Some (Heap.CStrings (crystalsRestored s))
    ∧ lc ≠ lr ∧ st ≠ initial.
Proof.
  state_intro. unfold Heap.construct. heap_unfold. heap_run.
  fresh_step. heap_run. fresh_step.
  exists lf0, lf, li, la, lc, lr. eexists. split; [reflexivity |].
  heap_run. repeat split; assumption.
Qed.

(** X23: the constructor copies one level deep: an engine made from a
    state object holds that state, its numbers being its own (damage taken
    by the engine leaves the initial object as it was), but its arrays are
    those of the initial object, so an item the engine adds shows in the
    initial object, and a second engine made from it starts with that
    item. *)
Theorem constructor_shares_arrays (h : gmap positive Heap.cell)
    (initial : positive) (s : GameState) :
  holds_state h initial s →
  ∃ this h1,
    Heap.construct initial h = Some (this, h1)
    ∧ represents h1 this s
    ∧ Heap.view_state h1 initial = Some s
    ∧ (∀ amount, ∃ r h2,
         Heap.takeDamage this amount h1 = Some (r, h2)
         ∧ Heap.view h2 this = Some (exec (takeDamage amount) s)
         ∧ Heap.view_state h2 initial = Some s)
    ∧ (∀ item, ∃ h2 this2 h3,
         Heap.addItem this item h1 = Some (tt, h2)
         ∧ Heap.view_state h2 initial = Some (exec (addItem item) s)
         ∧ Heap.construct initial h2 = Some (this2, h3)
         ∧ Heap.view h3 this2 = Some (exec (addItem item) s)).
Proof.
  intros Hinit.
  destruct (construct_cells h initial s Hinit)
    as (this & st & li & la & lc & lr & h1 & Hcons & Ht & Hs & Hi0 & Hi & Ha
        & Hc & Hr & Hne & Hsi).
  assert (lr ≠ lc) by congruence. assert (initial ≠ st) by congruence.
  heap_distinct.
  exists this, h1. split; [exact Hcons |].
  split; [exists st, li, la, lc, lr; repeat split; assumption |].
  split.
  { apply holds_state_view. exists li, la, lc, lr. repeat split; assumption. }
  split.
  - intros amount. heap_unfold. heap_run. do 2 eexists.
    split; [reflexivity |]. split.
    + apply represents_view. rep_exists st li la lc lr.
    + apply holds_state_view. exists li, la, lc, lr. heap_run.
      repeat split; assumption.
  - intros item. heap_unfold. heap_run.
    assert (Hinit2 : holds_state (<[li := Heap.CItems (inventory s ++ [item])]> h1)
                       initial (exec (addItem item) s)).
    { exists li, la, lc, lr. heap_run. repeat split; try reflexivity; assumption. }
    destruct (construct_cells _ initial _ Hinit2)
      as (this2 & st2 & li2 & la2 & lc2 & lr2 & h3 & Hcons2 & Ht2 & Hs2 & _
          & Hi2 & Ha2 & Hc2 & Hr2 & Hne2 & _).
    exists (<[li := Heap.CItems (inventory s ++ [item])]> h1), this2, h3.
    split; [reflexivity |].
    split; [apply holds_state_view; exact Hinit2 |].
    split; [exact Hcons2 |].
    apply represents_view. exists st2, li2, la2, lc2, lr2.
    repeat split; assumption.
Qed.

Lemma constructor_shares_arrays_witness :
  ∃ this h1,
    Heap.construct 5%positive initial_cells = Some (this, h1)
    ∧ represents h1 this INITIAL_STATE
    ∧ ∃ h2 this2 h3,
        Heap.addItem this elixir h1 = Some (tt, h2)
        ∧ Heap.construct 5%positive h2 = Some (this2, h3)
        ∧ Heap.view h3 this2 = Some (exec (addItem elixir) INITIAL_STATE).
Proof.
  destruct (constructor_shares_arrays initial_cells 5%positive INITIAL_STATE)
    as (this & h1 & Hcons & Hrep & _ & _ & Hadd).
  - exists 1%positive, 2%positive, 3%positive, 4%positive.
    repeat split; try (vm_compute; reflexivity). discriminate.
  - destruct (Hadd elixir) as (h2 & this2 & h3 & H1 & _ & H2 & H3).
    exists this, h1. split; [exact Hcons |]. split; [exact Hrep |].
    exists h2, this2, h3. auto.
Defined.

(** X24: the record returned by [getState] is not a frozen copy: its
    numbers stay as they were when the engine takes damage afterwards, but
    an item the engine adds afterwards shows in its inventory, the array
    being the engine's. *)
Theorem getState_snapshot_is_live (h : gmap positive Heap.cell)
    (this : positive) (s : GameState) :
  represents h this s →
  ∃ r h1,
    Heap.getState this h = Some (r, h1)
    ∧ Heap.view_state h1 r = Some s
    ∧ (∀ amount, ∃ res h2,
         Heap.takeDamage this amount h1 = Some (res, h2)
         ∧ Heap.view h2 this = Some (exec (takeDamage amount) s)
         ∧ Heap.view_state h2 r = Some s)
    ∧ (∀ item, ∃ h2,
         Heap.addItem this item h1 = Some (tt, h2)
         ∧ Heap.view h2 this = Some (exec (addItem item) s)
         ∧ Heap.view_state h2 r = Some (exec (addItem item) s)).
Proof.
  rep_intro. heap_unfold. heap_run. fresh_step.
  rename lf into r.
  exists r. eexists. split; [reflexivity |].
  split.
  { apply holds_state_view. exists li, la, lc, lr. heap_run.
    repeat split; assumption. }
  split.
  - intros amount. heap_run. do 2 eexists. split; [reflexivity |]. split.
    + apply represents_view. rep_exists st li la lc lr.
    + apply holds_state_view. exists li, la, lc, lr. heap_run.
      repeat split; assumption.
  - intros item. heap_run. eexists. split; [reflexivity |]. split.
    + apply represents_view. rep_exists st li la lc lr.
    + apply holds_state_view. exists li, la, lc, lr. heap_run.
      repeat split; try reflexivity; assumption.
Qed.

Lemma getState_snapshot_is_live_witness :
  ∃ r h1,
    Heap.getState engine_this engine_heap = Some (r, h1)
    ∧ Heap.view_state h1 r = Some INITIAL_STATE
    ∧ ∃ h2,
        Heap.addItem engine_this elixir h1 = Some (tt, h2)
        ∧ Heap.view_state h2 r = Some (exec (addItem elixir) INITIAL_STATE).
Proof.
  destruct (getState_snapshot_is_live engine_heap engine_this INITIAL_STATE)
    as (r & h1 & Hget & Hview & _ & Hadd).
  - exists 6%positive, 1%positive, 2%positive, 3%positive, 4%positive.
    repeat split; try (vm_compute; reflexivity). discriminate.
  - destruct (Hadd elixir) as (h2 & H1 & _ & H2).
    exists r, h1. split; [exact Hget |]. split; [exact Hview |].
    exists h2. auto.
Defined.
